(** * UNI-T UT8802E: packet parser and HID chunk framer

    A shallow embedding of [src/dmm/ut8802e.c] (packet validator, flag
    decoder, value decoder, measurement mapper) and of the chunk handler
    [get_and_handle_data] of [src/hardware/uni-t-ut8802e/protocol.c],
    together with the properties of the design document that concern them.

    Conventions.  A [uint8_t] is a [Z] in [0, 256); a C [int] is a [Z] (every
    integer computed below stays far inside the 32-bit range, which is proved
    where it matters); a [const uint8_t *buf] is a [list Z] read by index; a
    C [float] is an IEEE 754 binary32 value, modelled with the Standard
    Library's [SpecFloat] at precision 24 and maximal exponent 128. *)

From Stdlib Require Import ZArith List Bool Lia.
From Stdlib Require Import Floats.SpecFloat.
From Equations Require Import Equations.
Import ListNotations.

Local Open Scope Z_scope.

(** ** Bytes and windows *)

Definition is_byte (b : Z) : Prop := 0 <= b < 256.

(** [buf[i]] for a pointer into a byte array. *)
Definition byte_at (buf : list Z) (i : nat) : Z := nth i buf 0.

(** C's [(x & (1 << k)) != 0]. *)
Definition bit_set (x : Z) (k : Z) : bool :=
  negb (Z.land x (Z.shiftl 1 k) =? 0).

(** ** [struct ut8802e_info]

    The struct is declared in [libsigrok-internal.h]; the fields are the ones
    the parser reads or writes. *)

Record ut8802e_info : Type := mk_info {
  is_voltage : bool;
  is_current : bool;
  is_resistance : bool;
  is_capacitance : bool;
  is_frequency : bool;
  is_temperature : bool;
  is_celsius : bool;
  is_fahrenheit : bool;
  is_continuity : bool;
  is_diode : bool;
  is_duty_cycle : bool;
  is_power : bool;
  is_loop_current : bool;
  is_ac : bool;
  is_dc : bool;
  is_min : bool;
  is_max : bool;
  is_rel : bool;
  is_hold : bool;
  is_ol : bool;
  is_sign : bool
}.

(** [memset(&info, 0, sizeof(struct ut8802e_info))]. *)
Definition info_zero : ut8802e_info :=
  mk_info false false false false false false false false false false false false false false false false false false false false false.

(** Field assignments [info->f = v]. *)

Definition set_is_voltage (v : bool) (i : ut8802e_info) : ut8802e_info :=
  mk_info v (is_current i) (is_resistance i) (is_capacitance i) (is_frequency i) (is_temperature i) (is_celsius i) (is_fahrenheit i) (is_continuity i) (is_diode i) (is_duty_cycle i) (is_power i) (is_loop_current i) (is_ac i) (is_dc i) (is_min i) (is_max i) (is_rel i) (is_hold i) (is_ol i) (is_sign i).

Definition set_is_current (v : bool) (i : ut8802e_info) : ut8802e_info :=
  mk_info (is_voltage i) v (is_resistance i) (is_capacitance i) (is_frequency i) (is_temperature i) (is_celsius i) (is_fahrenheit i) (is_continuity i) (is_diode i) (is_duty_cycle i) (is_power i) (is_loop_current i) (is_ac i) (is_dc i) (is_min i) (is_max i) (is_rel i) (is_hold i) (is_ol i) (is_sign i).

Definition set_is_resistance (v : bool) (i : ut8802e_info) : ut8802e_info :=
  mk_info (is_voltage i) (is_current i) v (is_capacitance i) (is_frequency i) (is_temperature i) (is_celsius i) (is_fahrenheit i) (is_continuity i) (is_diode i) (is_duty_cycle i) (is_power i) (is_loop_current i) (is_ac i) (is_dc i) (is_min i) (is_max i) (is_rel i) (is_hold i) (is_ol i) (is_sign i).

Definition set_is_capacitance (v : bool) (i : ut8802e_info) : ut8802e_info :=
  mk_info (is_voltage i) (is_current i) (is_resistance i) v (is_frequency i) (is_temperature i) (is_celsius i) (is_fahrenheit i) (is_continuity i) (is_diode i) (is_duty_cycle i) (is_power i) (is_loop_current i) (is_ac i) (is_dc i) (is_min i) (is_max i) (is_rel i) (is_hold i) (is_ol i) (is_sign i).

Definition set_is_frequency (v : bool) (i : ut8802e_info) : ut8802e_info :=
  mk_info (is_voltage i) (is_current i) (is_resistance i) (is_capacitance i) v (is_temperature i) (is_celsius i) (is_fahrenheit i) (is_continuity i) (is_diode i) (is_duty_cycle i) (is_power i) (is_loop_current i) (is_ac i) (is_dc i) (is_min i) (is_max i) (is_rel i) (is_hold i) (is_ol i) (is_sign i).

Definition set_is_continuity (v : bool) (i : ut8802e_info) : ut8802e_info :=
  mk_info (is_voltage i) (is_current i) (is_resistance i) (is_capacitance i) (is_frequency i) (is_temperature i) (is_celsius i) (is_fahrenheit i) v (is_diode i) (is_duty_cycle i) (is_power i) (is_loop_current i) (is_ac i) (is_dc i) (is_min i) (is_max i) (is_rel i) (is_hold i) (is_ol i) (is_sign i).

Definition set_is_diode (v : bool) (i : ut8802e_info) : ut8802e_info :=
  mk_info (is_voltage i) (is_current i) (is_resistance i) (is_capacitance i) (is_frequency i) (is_temperature i) (is_celsius i) (is_fahrenheit i) (is_continuity i) v (is_duty_cycle i) (is_power i) (is_loop_current i) (is_ac i) (is_dc i) (is_min i) (is_max i) (is_rel i) (is_hold i) (is_ol i) (is_sign i).

Definition set_is_duty_cycle (v : bool) (i : ut8802e_info) : ut8802e_info :=
  mk_info (is_voltage i) (is_current i) (is_resistance i) (is_capacitance i) (is_frequency i) (is_temperature i) (is_celsius i) (is_fahrenheit i) (is_continuity i) (is_diode i) v (is_power i) (is_loop_current i) (is_ac i) (is_dc i) (is_min i) (is_max i) (is_rel i) (is_hold i) (is_ol i) (is_sign i).

Definition set_is_ac (v : bool) (i : ut8802e_info) : ut8802e_info :=
  mk_info (is_voltage i) (is_current i) (is_resistance i) (is_capacitance i) (is_frequency i) (is_temperature i) (is_celsius i) (is_fahrenheit i) (is_continuity i) (is_diode i) (is_duty_cycle i) (is_power i) (is_loop_current i) v (is_dc i) (is_min i) (is_max i) (is_rel i) (is_hold i) (is_ol i) (is_sign i).

Definition set_is_dc (v : bool) (i : ut8802e_info) : ut8802e_info :=
  mk_info (is_voltage i) (is_current i) (is_resistance i) (is_capacitance i) (is_frequency i) (is_temperature i) (is_celsius i) (is_fahrenheit i) (is_continuity i) (is_diode i) (is_duty_cycle i) (is_power i) (is_loop_current i) (is_ac i) v (is_min i) (is_max i) (is_rel i) (is_hold i) (is_ol i) (is_sign i).

(** ** The flag decoder: [parse_flags]

    The [switch] on the function byte [buf[1]], then the six modifier bits of
    [buf[6]].  The function mutates [*info]; here it maps the old struct to
    the new one. *)

Definition parse_mode (b1 : Z) (info : ut8802e_info) : ut8802e_info :=
  match b1 with
  | 0x0c | 0x0b | 0x0a | 0x09 =>
      set_is_voltage true (set_is_ac true info)
  | 0x01 | 0x03 | 0x04 | 0x05 | 0x06 =>
      set_is_voltage true (set_is_dc true info)
  | 0x1F | 0x1D | 0x1C | 0x1B | 0x1A | 0x19 =>
      set_is_resistance true info
  | 0x28 | 0x27 =>
      set_is_capacitance true info
  | 0x0d | 0x0e | 0x11 | 0x12 | 0x16 =>
      set_is_current true (set_is_dc true info)
  | 0x10 | 0x13 | 0x14 | 0x18 =>
      set_is_current true (set_is_ac true info)
  | 0x24 => set_is_continuity true info
  | 0x23 => set_is_diode true info
  | 0x2b | 0x2c => set_is_frequency true info
  | 0x22 => set_is_duty_cycle true info
  | _ => info
  end.

Definition parse_flags (buf : list Z) (info : ut8802e_info) : ut8802e_info :=
  let i := parse_mode (byte_at buf 1) info in
  let b6 := byte_at buf 6 in
  mk_info (is_voltage i) (is_current i) (is_resistance i) (is_capacitance i)
    (is_frequency i) (is_temperature i) (is_celsius i) (is_fahrenheit i)
    (is_continuity i) (is_diode i) (is_duty_cycle i) (is_power i)
    (is_loop_current i) (is_ac i) (is_dc i)
    (bit_set b6 0) (bit_set b6 1) (bit_set b6 3) (bit_set b6 4)
    (bit_set b6 6) (bit_set b6 7).

(** ** The validator: [flags_valid] and [sr_ut8802e_packet_valid] *)

Definition b2z (b : bool) : Z := if b then 1 else 0.

(** The variable [count] of [flags_valid], after its ten additions. *)
Definition category_count (info : ut8802e_info) : Z :=
  b2z (is_voltage info) + b2z (is_current info) + b2z (is_resistance info)
  + b2z (is_capacitance info) + b2z (is_frequency info)
  + b2z (is_temperature info) + b2z (is_continuity info)
  + b2z (is_diode info) + b2z (is_power info) + b2z (is_loop_current info).

Definition flags_valid (info : ut8802e_info) : bool :=
  if 1 <? category_count info then false else true.

Definition sr_ut8802e_packet_valid (buf : list Z) : bool :=
  if negb (byte_at buf 0 =? 0xAC) then false
  else flags_valid (parse_flags buf info_zero).

(** ** Binary32 arithmetic

    The operations of C's [float], from [SpecFloat] at the binary32
    parameters.  An [int] operand of a mixed expression is first converted
    to [float] ([f32_of_int]), as C's usual arithmetic conversions say. *)

Definition float32 : Type := spec_float.

Definition f32_prec : Z := 24.
Definition f32_emax : Z := 128.

Definition f32_of_int (n : Z) : float32 :=
  binary_normalize f32_prec f32_emax n 0 false.

Definition f32_mul : float32 -> float32 -> float32 := SFmul f32_prec f32_emax.
Definition f32_div : float32 -> float32 -> float32 := SFdiv f32_prec f32_emax.
Definition f32_opp : float32 -> float32 := SFopp.
Definition f32_ltb : float32 -> float32 -> bool := SFltb.
Definition f32_leb : float32 -> float32 -> bool := SFleb.

(** The macro [INFINITY] of [math.h]. *)
Definition INFINITY : float32 := S754_infinity false.

Definition f32_valid (x : float32) : bool := valid_binary f32_prec f32_emax x.

(** [powf(10, e)] belongs to the C library, not to the repository.  It is
    taken as the binary32 number nearest to the power of ten, which is the
    power itself up to [10^10] (the parser calls it with [0 <= e <= 15]). *)
Definition powf_10 (e : Z) : float32 := f32_of_int (10 ^ e).

(** ** The value decoder: [bcd_to_dec] and [parse_value] *)

(** The expression is evaluated in [int]; the [uint8_t] return type
    truncates it modulo 256. *)
Definition bcd_to_dec (byte : Z) : Z :=
  (Z.shiftr byte 4 * 10 + Z.land byte 0xf) mod 256.

Inductive sr_status : Type := SR_OK | SR_ERR.

(** The successive values of [intval], [*exponent] and [*floatval], one
    definition per statement of [parse_value]. *)

Definition pv_intval (buf : list Z) : Z :=
  bcd_to_dec (byte_at buf 4) * 10000
  + bcd_to_dec (byte_at buf 3) * 100
  + bcd_to_dec (byte_at buf 2).

Definition pv_exponent (buf : list Z) : Z := Z.land (byte_at buf 5) 0xf.

(** [*floatval = intval / powf(10, *exponent)] *)
Definition pv_quotient (buf : list Z) : float32 :=
  f32_div (f32_of_int (pv_intval buf)) (powf_10 (pv_exponent buf)).

(** [if (info->is_ol) *floatval = INFINITY] *)
Definition pv_overload (info : ut8802e_info) (v : float32) : float32 :=
  if is_ol info then INFINITY else v.

(** [*floatval *= info->is_sign ? -1 : 1] *)
Definition pv_sign (info : ut8802e_info) (v : float32) : float32 :=
  f32_mul v (f32_of_int (if is_sign info then -1 else 1)).

(** [if (info->is_frequency && buf[1] == 0x2c) *floatval *= 1000] *)
Definition pv_frequency (buf : list Z) (info : ut8802e_info) (v : float32)
  : float32 :=
  if is_frequency info && (byte_at buf 1 =? 0x2c)
  then f32_mul v (f32_of_int 1000) else v.

(** The [switch] under [if (info->is_capacitance)]. *)
Definition pv_capacitance (buf : list Z) (info : ut8802e_info) (v : float32)
  : float32 :=
  if is_capacitance info then
    match byte_at buf 1 with
    | 0x27 => f32_div v (f32_of_int 1000)
    | 0x28 => f32_div v (f32_of_int 1)
    | _ => v
    end
  else v.

(** The value of [*floatval] once overload and sign are handled, before the
    mode-specific scaling. *)
Definition pv_signed (buf : list Z) (info : ut8802e_info) : float32 :=
  pv_sign info (pv_overload info (pv_quotient buf)).

(** [parse_value]: the return code, [*floatval] and [*exponent]. *)
Definition parse_value (buf : list Z) (info : ut8802e_info)
  : sr_status * float32 * Z :=
  let exponent := pv_exponent buf in
  let floatval := pv_quotient buf in
  let floatval := pv_overload info floatval in
  let floatval := pv_sign info floatval in
  let floatval := pv_frequency buf info floatval in
  let floatval := pv_capacitance buf info floatval in
  (SR_OK, floatval, exponent).

(** ** The measurement mapper: [handle_flags]

    [struct sr_datafeed_analog] with the parts of its [meaning], [encoding]
    and [spec] that the parser writes.  [mq] and [unit] are [None] as long as
    they hold the zero that [sr_analog_init] left; the bit mask [mqflags] is
    the set of its flags. *)

Inductive sr_mq : Type :=
| SR_MQ_VOLTAGE | SR_MQ_CURRENT | SR_MQ_RESISTANCE | SR_MQ_CAPACITANCE
| SR_MQ_TEMPERATURE | SR_MQ_FREQUENCY | SR_MQ_DUTY_CYCLE | SR_MQ_CONTINUITY
| SR_MQ_POWER.

Inductive sr_unit : Type :=
| SR_UNIT_VOLT | SR_UNIT_AMPERE | SR_UNIT_OHM | SR_UNIT_FARAD
| SR_UNIT_CELSIUS | SR_UNIT_FAHRENHEIT | SR_UNIT_HERTZ | SR_UNIT_PERCENTAGE
| SR_UNIT_BOOLEAN | SR_UNIT_WATT.

Record sr_mqflags : Type := mk_mqflags {
  SR_MQFLAG_AC : bool;
  SR_MQFLAG_DC : bool;
  SR_MQFLAG_RMS : bool;
  SR_MQFLAG_DIODE : bool;
  SR_MQFLAG_MIN : bool;
  SR_MQFLAG_MAX : bool;
  SR_MQFLAG_RELATIVE : bool;
  SR_MQFLAG_HOLD : bool
}.

(** [mqflags |= f], for a mask [f] given as a set. *)
Definition mqflags_or (a f : sr_mqflags) : sr_mqflags :=
  mk_mqflags
    (SR_MQFLAG_AC a || SR_MQFLAG_AC f) (SR_MQFLAG_DC a || SR_MQFLAG_DC f)
    (SR_MQFLAG_RMS a || SR_MQFLAG_RMS f)
    (SR_MQFLAG_DIODE a || SR_MQFLAG_DIODE f)
    (SR_MQFLAG_MIN a || SR_MQFLAG_MIN f) (SR_MQFLAG_MAX a || SR_MQFLAG_MAX f)
    (SR_MQFLAG_RELATIVE a || SR_MQFLAG_RELATIVE f)
    (SR_MQFLAG_HOLD a || SR_MQFLAG_HOLD f).

Definition mqflags_none : sr_mqflags :=
  mk_mqflags false false false false false false false false.
Definition flag_AC : sr_mqflags :=
  mk_mqflags true false false false false false false false.
Definition flag_DC : sr_mqflags :=
  mk_mqflags false true false false false false false false.
Definition flag_RMS : sr_mqflags :=
  mk_mqflags false false true false false false false false.
Definition flag_DIODE : sr_mqflags :=
  mk_mqflags false false false true false false false false.
Definition flag_MIN : sr_mqflags :=
  mk_mqflags false false false false true false false false.
Definition flag_MAX : sr_mqflags :=
  mk_mqflags false false false false false true false false.
Definition flag_RELATIVE : sr_mqflags :=
  mk_mqflags false false false false false false true false.
Definition flag_HOLD : sr_mqflags :=
  mk_mqflags false false false false false false false true.

Record sr_datafeed_analog : Type := mk_analog {
  mq : option sr_mq;
  unit : option sr_unit;
  mqflags : sr_mqflags;
  digits : Z;
  spec_digits : Z
}.

(** [sr_analog_init(&analog, &encoding, &meaning, &spec, 0)]. *)
Definition sr_analog_init : sr_datafeed_analog :=
  mk_analog None None mqflags_none 0 0.

Definition set_meaning (q : sr_mq) (u : sr_unit) (a : sr_datafeed_analog)
  : sr_datafeed_analog :=
  mk_analog (Some q) (Some u) (mqflags a) (digits a) (spec_digits a).

Definition or_mqflags (f : sr_mqflags) (a : sr_datafeed_analog)
  : sr_datafeed_analog :=
  mk_analog (mq a) (unit a) (mqflags_or (mqflags a) f) (digits a)
    (spec_digits a).

Definition set_digits (d : Z) (a : sr_datafeed_analog) : sr_datafeed_analog :=
  mk_analog (mq a) (unit a) (mqflags a) d d.

(** [if (c) s], for a statement [s] that updates a state of type [A]. *)
Definition when {A : Type} (c : bool) (s : A -> A) (x : A) : A :=
  if c then s x else x.

(** The constants [0.0], [60.0] and [1.0] of [handle_flags].  They are
    [double] literals; the conversion of [*floatval] to [double] is exact and
    the three constants are binary32 numbers, so the comparisons and the
    assignment give what they give in binary32. *)
Definition f32_0 : float32 := S754_zero false.
Definition f32_60 : float32 := f32_of_int 60.
Definition f32_1 : float32 := f32_of_int 1.

(** The assignment to [*floatval] under [if (info->is_continuity)]: [0.0]
    when the value is [< 0.0] or [> 60.0], else [1.0]. *)
Definition continuity_value (v : float32) : float32 :=
  if f32_ltb v f32_0 || f32_ltb f32_60 v then f32_0 else f32_1.

(** [handle_flags]: the state is the pair of [*analog] and [*floatval]; the
    statements run in the order of the source. *)
Definition handle_flags (analog : sr_datafeed_analog) (floatval : float32)
    (info : ut8802e_info) : sr_datafeed_analog * float32 :=
  let a := analog in
  (* Measurement modes *)
  let a := when (is_voltage info) (set_meaning SR_MQ_VOLTAGE SR_UNIT_VOLT) a in
  let a := when (is_current info)
             (set_meaning SR_MQ_CURRENT SR_UNIT_AMPERE) a in
  let a := when (is_resistance info)
             (set_meaning SR_MQ_RESISTANCE SR_UNIT_OHM) a in
  let a := when (is_frequency info)
             (set_meaning SR_MQ_FREQUENCY SR_UNIT_HERTZ) a in
  let a := when (is_capacitance info)
             (set_meaning SR_MQ_CAPACITANCE SR_UNIT_FARAD) a in
  let a := when (is_temperature info && is_celsius info)
             (set_meaning SR_MQ_TEMPERATURE SR_UNIT_CELSIUS) a in
  let a := when (is_temperature info && is_fahrenheit info)
             (set_meaning SR_MQ_TEMPERATURE SR_UNIT_FAHRENHEIT) a in
  let a := when (is_continuity info)
             (set_meaning SR_MQ_CONTINUITY SR_UNIT_BOOLEAN) a in
  let v := when (is_continuity info) continuity_value floatval in
  let a := when (is_diode info) (set_meaning SR_MQ_VOLTAGE SR_UNIT_VOLT) a in
  let a := when (is_duty_cycle info)
             (set_meaning SR_MQ_DUTY_CYCLE SR_UNIT_PERCENTAGE) a in
  let a := when (is_power info) (set_meaning SR_MQ_POWER SR_UNIT_WATT) a in
  let a := when (is_loop_current info)
             (set_meaning SR_MQ_CURRENT SR_UNIT_PERCENTAGE) a in
  (* Measurement related flags *)
  let a := when (is_ac info) (or_mqflags flag_AC) a in
  let a := when (is_dc info) (or_mqflags flag_DC) a in
  let a := when (is_ac info) (or_mqflags flag_RMS) a in
  let a := when (is_diode info)
             (or_mqflags (mqflags_or flag_DIODE flag_DC)) a in
  (* Special modes *)
  let a := when (is_min info) (or_mqflags flag_MIN) a in
  let a := when (is_max info) (or_mqflags flag_MAX) a in
  let a := when (is_rel info) (or_mqflags flag_RELATIVE) a in
  let a := when (is_hold info) (or_mqflags flag_HOLD) a in
  (a, v).

(** ** [sr_ut8802e_parse]

    The result is the return code with the final [*floatval], [*analog] and
    [*info]; on [SR_ERR] the caller's [floatval] and [analog] are untouched,
    which is [None] here. *)
Definition sr_ut8802e_parse (buf : list Z) (analog : sr_datafeed_analog)
  : sr_status * option (float32 * sr_datafeed_analog) * ut8802e_info :=
  let info := info_zero in
  if negb (sr_ut8802e_packet_valid buf) then (SR_ERR, None, info)
  else
    let info := parse_flags buf info in
    match parse_value buf info with
    | (SR_OK, floatval, exponent) =>
        let '(analog, floatval) := handle_flags analog floatval info in
        let analog := set_digits exponent analog in
        (SR_OK, Some (floatval, analog), info)
    | (ret, _, _) => (ret, None, info)
    end.

(** ** The chunk handler of [protocol.c]

    [protocol.h] is not among the sources.  Its two sizes that matter are
    fixed by the comments of [protocol.c] and by the design document; the
    third, [DMM_BUFSIZE], is the length of the array [protocol_buf]. *)

(** Modelled from the spec: the macro [UT8802E_PACKET_SIZE] of the missing
    header; a DMM packet has 8 bytes. *)
Definition UT8802E_PACKET_SIZE : Z := 8.

(** Modelled from the spec: the macro [CHUNK_SIZE] of the missing header; a
    HID chunk has 8 bytes, the count and up to 7 data bytes. *)
Definition CHUNK_SIZE : Z := 8.

(** The parts of [struct dev_context] that the handler uses (the sample and
    time limits of the host are left out). *)
Record dev_context : Type := mk_devc {
  first_run : bool;
  protocol_buf : list Z;
  buflen : Z;
  bufoffset : Z
}.

(** [DMM_BUFSIZE]: the declared size of [devc->protocol_buf]. *)
Definition DMM_BUFSIZE (devc : dev_context) : Z :=
  Z.of_nat (length (protocol_buf devc)).

(** An analog packet with one sample, as [decode_packet] hands it to
    [sr_session_send]. *)
Record sr_datafeed_packet : Type := mk_packet {
  payload : sr_datafeed_analog;
  data : float32
}.

(** [decode_packet], with [dmm->packet_parse = sr_ut8802e_parse] and
    [dmm->dmm_details = NULL] as the driver table of [api.c] sets them: the
    packet sent to the session, or nothing when the parser refuses. *)
Definition decode_packet (buf : list Z) : option sr_datafeed_packet :=
  match sr_ut8802e_parse buf sr_analog_init with
  | (SR_OK, Some (floatval, analog), _) => Some (mk_packet analog floatval)
  | _ => None
  end.

(** Array accesses.  An index outside the array is undefined behaviour in C
    and [None] here. *)
Definition load (a : list Z) (i : Z) : option Z :=
  if (0 <=? i) && (i <? Z.of_nat (length a))
  then Some (nth (Z.to_nat i) a 0) else None.

Definition store (a : list Z) (i : Z) (v : Z) : option (list Z) :=
  if (0 <=? i) && (i <? Z.of_nat (length a))
  then Some (firstn (Z.to_nat i) a ++ v :: skipn (Z.to_nat (i + 1)) a)
  else None.

(** The pointer [pbuf + off]. *)
Definition at_offset (pbuf : list Z) (off : Z) : list Z :=
  skipn (Z.to_nat off) pbuf.

(** The local array [buf] after [memset(&buf, 0x00, CHUNK_SIZE)] and a
    transfer that delivered the bytes [received] (at most [CHUNK_SIZE] of
    them are stored). *)
Definition chunk_of (received : list Z) : list Z :=
  firstn (Z.to_nat CHUNK_SIZE) (received ++ repeat 0 (Z.to_nat CHUNK_SIZE)).

(** The copy loop
    [for (i = 0; i < num_databytes_in_chunk; i++, devc->buflen++)
       pbuf[devc->buflen] = buf[1 + i];]
    with [todo] iterations left.  The result is the pair of [pbuf] and
    [devc->buflen]. *)
Fixpoint append_loop (todo : nat) (i : Z) (buf pbuf : list Z) (len : Z)
  : option (list Z * Z) :=
  match todo with
  | O => Some (pbuf, len)
  | S todo' =>
      match load buf (1 + i) with
      | None => None
      | Some v =>
          match store pbuf len v with
          | None => None
          | Some pbuf' => append_loop todo' (i + 1) buf pbuf' (len + 1)
          end
      end
  end.

Definition append_chunk (buf pbuf : list Z) (len : Z) : option (list Z * Z) :=
  let num_databytes_in_chunk := byte_at buf 0 in
  append_loop (Z.to_nat num_databytes_in_chunk) 0 buf pbuf len.

(** One turn of the [while] loop: the new [devc->bufoffset] and the packet
    sent, if any. *)
Definition scan_step (pbuf : list Z) (off : Z)
  : Z * option sr_datafeed_packet :=
  if sr_ut8802e_packet_valid (at_offset pbuf off)
  then (off + UT8802E_PACKET_SIZE, decode_packet (at_offset pbuf off))
  else (off + 1, None).

Definition sent_by (p : option sr_datafeed_packet) : list sr_datafeed_packet :=
  match p with Some x => [x] | None => [] end.

Definition inspect {A : Type} (a : A) : { b : A | a = b } :=
  exist _ a eq_refl.

(** The loop
    [while ((devc->buflen - devc->bufoffset) >= dmm->packet_size) ...]:
    the final [devc->bufoffset] and the packets sent, in order, after the
    ones in [sent]. *)
Equations? drain (pbuf : list Z) (len off : Z)
    (sent : list sr_datafeed_packet)
  : Z * list sr_datafeed_packet
  by wf (Z.to_nat (len - off)) lt :=
  drain pbuf len off sent with inspect (UT8802E_PACKET_SIZE <=? len - off) := {
    | exist _ false _ => (off, sent)
    | exist _ true _
        with inspect (sr_ut8802e_packet_valid (at_offset pbuf off)) := {
        | exist _ true _ =>
            drain pbuf len (off + UT8802E_PACKET_SIZE)
              (sent ++ sent_by (decode_packet (at_offset pbuf off)))
        | exist _ false _ =>
            drain pbuf len (off + 1) sent } }.
Proof.
  all: unfold UT8802E_PACKET_SIZE in *;
    match goal with H : (_ <=? _) = true |- _ => apply Z.leb_le in H end; lia.
Qed.

(** [memmove(pbuf, pbuf + off, n)]. *)
Definition memmove_front (pbuf : list Z) (off n : Z) : list Z :=
  firstn (Z.to_nat n) (at_offset pbuf off) ++ skipn (Z.to_nat n) pbuf.

(** The two statements after the loop. *)
Definition compact (pbuf : list Z) (len off : Z) : list Z * Z :=
  let pbuf := if off <? len then memmove_front pbuf off (len - off)
              else pbuf in
  (pbuf, len - off).

(** [get_and_handle_data].  The environment enters through three arguments:
    [init_ret], what [hid_chip_init] returns if it is called; [xfer_ret],
    what [libusb_interrupt_transfer] returns; [received], the bytes that the
    transfer stored.  The result is the return code, the new [*devc] and the
    packets sent to the session; [None] stands for an access outside an
    array. *)
Definition get_and_handle_data (devc : dev_context) (init_ret : sr_status)
    (xfer_ret : Z) (received : list Z)
  : option (sr_status * dev_context * list sr_datafeed_packet) :=
  let pbuf := protocol_buf devc in
  let init_failed :=
    first_run devc && match init_ret with SR_OK => false | SR_ERR => true end in
  if init_failed then Some (SR_ERR, devc, [])
  else
    let pbuf := if first_run devc then repeat 0 (length pbuf) else pbuf in
    let devc := mk_devc false pbuf (buflen devc) (bufoffset devc) in
    let buf := chunk_of received in
    if xfer_ret <? 0 then Some (SR_ERR, devc, [])
    else if byte_at buf 0 =? 0x0 then Some (SR_OK, devc, [])
    else
      match append_chunk buf pbuf (buflen devc) with
      | None => None
      | Some (pbuf, len) =>
          let '(off, sent) := drain pbuf len 0 [] in
          let '(pbuf, len') := compact pbuf len off in
          Some (SR_OK, mk_devc false pbuf len' off, sent)
      end.

(** [uni_t_ut8802e_receive_data], up to the limit check: [TRUE] unless the
    handler failed. *)
Definition uni_t_ut8802e_receive_data (devc : dev_context)
    (init_ret : sr_status) (xfer_ret : Z) (received : list Z)
  : option (bool * dev_context * list sr_datafeed_packet) :=
  match get_and_handle_data devc init_ret xfer_ret received with
  | None => None
  | Some (SR_OK, devc', sent) => Some (true, devc', sent)
  | Some (SR_ERR, devc', sent) => Some (false, devc', sent)
  end.

(** ** The categories of the design document

    The design document speaks of the measurement category of a packet and
    of its AC/DC modifier.  [decoded_mode] reads both off a decoded
    [ut8802e_info]; the duty cycle is a category of the document's table
    although [flags_valid] does not count it. *)

Inductive category : Type :=
| Voltage | Current | Resistance | Capacitance | Frequency | Temperature
| Continuity | Diode | DutyCycle | Power | LoopCurrent.

Inductive coupling : Type := AC | DC | NoCoupling | BothCouplings.

Definition categories (i : ut8802e_info) : list category :=
  (if is_voltage i then [Voltage] else [])
  ++ (if is_current i then [Current] else [])
  ++ (if is_resistance i then [Resistance] else [])
  ++ (if is_capacitance i then [Capacitance] else [])
  ++ (if is_frequency i then [Frequency] else [])
  ++ (if is_temperature i then [Temperature] else [])
  ++ (if is_continuity i then [Continuity] else [])
  ++ (if is_diode i then [Diode] else [])
  ++ (if is_duty_cycle i then [DutyCycle] else [])
  ++ (if is_power i then [Power] else [])
  ++ (if is_loop_current i then [LoopCurrent] else []).

Definition coupling_of (i : ut8802e_info) : coupling :=
  match is_ac i, is_dc i with
  | true, false => AC
  | false, true => DC
  | false, false => NoCoupling
  | true, true => BothCouplings
  end.

Definition decoded_mode (i : ut8802e_info) : list category * coupling :=
  (categories i, coupling_of i).

Definition in_range (lo hi b : Z) : bool := (lo <=? b) && (b <=? hi).

Definition one_of (l : list Z) (b : Z) : bool := existsb (Z.eqb b) l.

(** The table of the design document, row by row, in its words: the
    resistance row is the whole range [0x19-0x1F]. *)
Definition spec_mode_table (b : Z) : list category * coupling :=
  if in_range 0x09 0x0c b then ([Voltage], AC)
  else if one_of [0x01] b || in_range 0x03 0x06 b then ([Voltage], DC)
  else if in_range 0x19 0x1F b then ([Resistance], NoCoupling)
  else if one_of [0x27; 0x28] b then ([Capacitance], NoCoupling)
  else if one_of [0x0d; 0x0e; 0x11; 0x12; 0x16] b then ([Current], DC)
  else if one_of [0x10; 0x13; 0x14; 0x18] b then ([Current], AC)
  else if one_of [0x24] b then ([Continuity], NoCoupling)
  else if one_of [0x23] b then ([Diode], NoCoupling)
  else if one_of [0x2b; 0x2c] b then ([Frequency], NoCoupling)
  else if one_of [0x22] b then ([DutyCycle], NoCoupling)
  else ([], NoCoupling).

(** The same table with the resistance row as the [switch] has it: [0x1E] is
    not a resistance mode. *)
Definition switch_mode_table (b : Z) : list category * coupling :=
  if in_range 0x09 0x0c b then ([Voltage], AC)
  else if one_of [0x01] b || in_range 0x03 0x06 b then ([Voltage], DC)
  else if in_range 0x19 0x1D b || one_of [0x1F] b
       then ([Resistance], NoCoupling)
  else if one_of [0x27; 0x28] b then ([Capacitance], NoCoupling)
  else if one_of [0x0d; 0x0e; 0x11; 0x12; 0x16] b then ([Current], DC)
  else if one_of [0x10; 0x13; 0x14; 0x18] b then ([Current], AC)
  else if one_of [0x24] b then ([Continuity], NoCoupling)
  else if one_of [0x23] b then ([Diode], NoCoupling)
  else if one_of [0x2b; 0x2c] b then ([Frequency], NoCoupling)
  else if one_of [0x22] b then ([DutyCycle], NoCoupling)
  else ([], NoCoupling).

(** ** Auxiliary notions of the statements *)

(** Two windows with the same bytes 0 to 6. *)
Definition same_window (w1 w2 : list Z) : Prop :=
  forall i : nat, (i < 7)%nat -> byte_at w1 i = byte_at w2 i.

(** The declared number of data bytes of a chunk: [buf[0]]. *)
Definition declared_length (received : list Z) : Z :=
  byte_at (chunk_of received) 0.

(** [hid_chip_init] is called and fails. *)
Definition init_fails (devc : dev_context) (init_ret : sr_status) : bool :=
  first_run devc && match init_ret with SR_OK => false | SR_ERR => true end.

(** The handler returned [SR_ERR]. *)
Definition returns_error
    (r : option (sr_status * dev_context * list sr_datafeed_packet)) : bool :=
  match r with
  | Some (SR_ERR, _, _) => true
  | _ => false
  end.


(** The exponent of the binary32 numbers with [k] digits before the
    binary point. *)
Definition fexp32 (k : Z) : Z := fexp f32_prec f32_emax k.

Definition f32_is_nan (x : float32) : bool :=
  match x with S754_nan => true | _ => false end.

Definition f32_is_finite (x : float32) : bool :=
  match x with S754_finite _ _ _ => true | _ => false end.

(** The BCD decoding of the design document, in its words and without the
    truncation of the return type. *)
Definition bcd (b : Z) : Z := 10 * Z.shiftr b 4 + Z.land b 0xF.

(** A window of eight [uint8_t]. *)
Definition window_bytes (buf : list Z) : Prop :=
  forall i : nat, (i < 8)%nat -> is_byte (byte_at buf i).

(** The integer that a binary32 number is, if it is one. *)
Definition f32_to_Z (x : float32) : option Z :=
  match x with
  | S754_zero _ => Some 0
  | S754_finite s m e =>
      let sign := if s then -1 else 1 in
      if 0 <=? e then Some (sign * (Z.pos m * 2 ^ e))
      else if Z.pos m mod 2 ^ (- e) =? 0
           then Some (sign * (Z.pos m / 2 ^ (- e)))
           else None
  | _ => None
  end.

(** ** Notions for the byte stream *)

(** The bytes that the packet buffer holds: the first [buflen] of the
    array. *)
Definition valid_bytes (devc : dev_context) : list Z :=
  firstn (Z.to_nat (buflen devc)) (protocol_buf devc).

(** The declared data bytes of a chunk: [buf[1]] to [buf[buf[0]]]. *)
Definition data_of (received : list Z) : list Z :=
  firstn (Z.to_nat (declared_length received)) (skipn 1 (chunk_of received)).

(** The handler called once for each chunk of a list, as the event loop
    calls it at every poll, with the HID chip set up and every transfer
    successful: the final [*devc] and all the packets sent, in order. *)
Fixpoint feed (devc : dev_context) (chunks : list (list Z))
  : option (dev_context * list sr_datafeed_packet) :=
  match chunks with
  | [] => Some (devc, [])
  | received :: chunks' =>
      match get_and_handle_data devc SR_OK 0 received with
      | None => None
      | Some (_, devc', sent) =>
          match feed devc' chunks' with
          | None => None
          | Some (devc'', sent') => Some (devc'', sent ++ sent')
          end
      end
  end.

(** The arrays [p1] from [o1] and [p2] from [o2] hold the same [k]
    bytes. *)
Definition same_bytes (p1 : list Z) (o1 : Z) (p2 : list Z) (o2 : Z) (k : nat)
  : Prop :=
  forall j : nat, (j < k)%nat ->
    nth (Z.to_nat o1 + j) p1 0 = nth (Z.to_nat o2 + j) p2 0.

(** ** Notions for the measurement *)

(** The quantity and the unit that the mapper gives to the categories of
    a packet. *)
Definition meaning_of (cs : list category) : option sr_mq * option sr_unit :=
  match cs with
  | [Voltage] => (Some SR_MQ_VOLTAGE, Some SR_UNIT_VOLT)
  | [Current] => (Some SR_MQ_CURRENT, Some SR_UNIT_AMPERE)
  | [Resistance] => (Some SR_MQ_RESISTANCE, Some SR_UNIT_OHM)
  | [Capacitance] => (Some SR_MQ_CAPACITANCE, Some SR_UNIT_FARAD)
  | [Frequency] => (Some SR_MQ_FREQUENCY, Some SR_UNIT_HERTZ)
  | [Continuity] => (Some SR_MQ_CONTINUITY, Some SR_UNIT_BOOLEAN)
  | [Diode] => (Some SR_MQ_VOLTAGE, Some SR_UNIT_VOLT)
  | [DutyCycle] => (Some SR_MQ_DUTY_CYCLE, Some SR_UNIT_PERCENTAGE)
  | _ => (None, None)
  end.

Definition is_AC (c : coupling) : bool :=
  match c with AC => true | _ => false end.

Definition is_DC (c : coupling) : bool :=
  match c with DC => true | _ => false end.

(** The sign bit of a binary32 number. *)
Definition f32_signbit (x : float32) : bool :=
  match x with
  | S754_zero s | S754_infinity s | S754_finite s _ _ => s
  | S754_nan => false
  end.

(** The byte that holds the two decimal digits of [d] in BCD. *)
Definition bcd_encode (d : Z) : Z := 16 * (d / 10) + d mod 10.

(** * Properties *)

(** ** The flag decoder *)

Lemma parse_flags_mode (buf : list Z) (info : ut8802e_info) :
  decoded_mode (parse_flags buf info)
  = decoded_mode (parse_mode (byte_at buf 1) info).
Proof. reflexivity. Qed.

Lemma category_count_parse_flags (buf : list Z) (info : ut8802e_info) :
  category_count (parse_flags buf info)
  = category_count (parse_mode (byte_at buf 1) info).
Proof. reflexivity. Qed.

(** Case analysis on a mode byte: the six low bits decide the [switch]. *)
Ltac mode_cases b :=
  destruct b as [ | p | p ];
  [ | do 7 (try destruct p as [ p | p | ]) | ].

Lemma parse_mode_table (b : Z) :
  decoded_mode (parse_mode b info_zero) = switch_mode_table b.
Proof. mode_cases b; reflexivity. Qed.

Lemma parse_mode_count (b : Z) :
  category_count (parse_mode b info_zero) <= 1.
Proof. mode_cases b; cbv; discriminate. Qed.

(** C7, as the code has it.  The flag decoder, started on a zeroed struct
    as the validator and the parser start it, maps every mode byte of the
    table to its single category and its AC/DC modifier, and every other
    mode byte to no category at all.  The resistance modes are
    [0x19]-[0x1D] and [0x1F]; [0x1E] is one of the other bytes. *)
Theorem flag_decoder_follows_switch_table (buf : list Z) :
  decoded_mode (parse_flags buf info_zero)
  = switch_mode_table (byte_at buf 1)
  /\ switch_mode_table 0x1E = ([], NoCoupling).
Proof.
  split; [ | reflexivity ].
  rewrite parse_flags_mode. apply parse_mode_table.
Qed.

(** C7 as stated fails at the mode byte [0x1E]: the document's row
    [0x19-0x1F] makes it a resistance mode, the decoder sets no category. *)
Lemma mode_0x1E_sets_no_category :
  let w := [0xAC; 0x1E; 0x00; 0x00; 0x00; 0x30; 0x00; 0x00] in
  spec_mode_table (byte_at w 1) = ([Resistance], NoCoupling)
  /\ is_resistance (parse_flags w info_zero) = false
  /\ decoded_mode (parse_flags w info_zero) = ([], NoCoupling).
Proof. repeat split. Qed.

(** ** The validator *)

Lemma flags_valid_iff (info : ut8802e_info) :
  flags_valid info = true <-> category_count info <= 1.
Proof.
  unfold flags_valid.
  destruct (1 <? category_count info) eqn:E.
  - apply Z.ltb_lt in E. split; [ discriminate | lia ].
  - apply Z.ltb_ge in E. split; [ intros _; exact E | reflexivity ].
Qed.

Lemma packet_valid_magic (buf : list Z) :
  sr_ut8802e_packet_valid buf = (byte_at buf 0 =? 0xAC).
Proof.
  unfold sr_ut8802e_packet_valid.
  destruct (byte_at buf 0 =? 0xAC); [ | reflexivity ].
  cbn [negb]. apply flags_valid_iff.
  rewrite category_count_parse_flags. apply parse_mode_count.
Qed.

(** C1, as the code has it.  The validator returns true exactly when byte 0
    is the magic marker and at most one counted category is decoded.  The
    decoder never sets more than one, so the magic marker alone decides: a
    window with the marker is accepted whatever its mode byte, also when
    the mode byte maps to no category. *)
Theorem packet_valid_iff_magic_and_at_most_one (buf : list Z) :
  (sr_ut8802e_packet_valid buf = true
   <-> byte_at buf 0 = 0xAC
       /\ category_count (parse_flags buf info_zero) <= 1)
  /\ category_count (parse_flags buf info_zero) <= 1
  /\ sr_ut8802e_packet_valid buf = (byte_at buf 0 =? 0xAC).
Proof.
  assert (C : category_count (parse_flags buf info_zero) <= 1).
  { rewrite category_count_parse_flags. apply parse_mode_count. }
  split; [ | split; [ exact C | apply packet_valid_magic ] ].
  rewrite packet_valid_magic, Z.eqb_eq. tauto.
Qed.

(** C1 as stated fails on a window with the magic marker and an unknown
    mode byte: no category is decoded, and the validator accepts it. *)
Lemma unknown_mode_byte_is_accepted :
  let w := [0xAC; 0x00; 0x00; 0x00; 0x00; 0x30; 0x00; 0x00] in
  categories (parse_flags w info_zero) = []
  /\ category_count (parse_flags w info_zero) = 0
  /\ sr_ut8802e_packet_valid w = true
  /\ ~ (sr_ut8802e_packet_valid w = true
        <-> byte_at w 0 = 0xAC
            /\ category_count (parse_flags w info_zero) = 1).
Proof.
  cbv zeta. repeat split.
  intros [H _]. specialize (H eq_refl). destruct H as [_ H]. discriminate H.
Qed.

(** The verdict reads bytes 0 and 1 only. *)
Lemma packet_valid_ext (w1 w2 : list Z) :
  byte_at w1 0 = byte_at w2 0 ->
  byte_at w1 1 = byte_at w2 1 ->
  sr_ut8802e_packet_valid w1 = sr_ut8802e_packet_valid w2.
Proof.
  intros H0 H1. rewrite !packet_valid_magic, H0. reflexivity.
Qed.

(** C9.  Two windows that agree on bytes 0 and 1 get the same verdict,
    whatever their digit bytes, exponent byte, flags byte and checksum
    byte are. *)
Theorem packet_valid_depends_on_bytes_0_1 (w1 w2 : list Z) :
  byte_at w1 0 = byte_at w2 0 ->
  byte_at w1 1 = byte_at w2 1 ->
  sr_ut8802e_packet_valid w1 = sr_ut8802e_packet_valid w2.
Proof.
  intros H0 H1. unfold sr_ut8802e_packet_valid, flags_valid.
  rewrite !category_count_parse_flags, H0, H1. reflexivity.
Qed.

Lemma packet_valid_depends_on_bytes_0_1_witness :
  sr_ut8802e_packet_valid [0xAC; 0x03; 0x34; 0x12; 0x00; 0x32; 0x00; 0x5a]
  = sr_ut8802e_packet_valid [0xAC; 0x03; 0x99; 0x01; 0x07; 0x3f; 0xd3; 0x00].
Proof.
  apply (packet_valid_depends_on_bytes_0_1
           [0xAC; 0x03; 0x34; 0x12; 0x00; 0x32; 0x00; 0x5a]
           [0xAC; 0x03; 0x99; 0x01; 0x07; 0x3f; 0xd3; 0x00]);
    reflexivity.
Defined.

(** ** Windows

    The parser reads bytes 0 to 6 of its window and nothing else. *)

Lemma byte_at_app_l (a b : list Z) (i : nat) :
  (i < length a)%nat -> byte_at (a ++ b) i = byte_at a i.
Proof. intros H. unfold byte_at. apply app_nth1. exact H. Qed.

Lemma parse_ext (w1 w2 : list Z) (a : sr_datafeed_analog) :
  same_window w1 w2 -> sr_ut8802e_parse w1 a = sr_ut8802e_parse w2 a.
Proof.
  intros H.
  assert (H0 := H 0%nat ltac:(lia)). assert (H1 := H 1%nat ltac:(lia)).
  assert (H2 := H 2%nat ltac:(lia)). assert (H3 := H 3%nat ltac:(lia)).
  assert (H4 := H 4%nat ltac:(lia)). assert (H5 := H 5%nat ltac:(lia)).
  assert (H6 := H 6%nat ltac:(lia)).
  unfold sr_ut8802e_parse, parse_value, pv_capacitance, pv_frequency,
    pv_quotient, pv_exponent, pv_intval.
  rewrite (packet_valid_ext w1 w2 H0 H1).
  unfold parse_flags. rewrite H1, H2, H3, H4, H5, H6. reflexivity.
Qed.

Lemma same_window_app (p rest : list Z) :
  length p = 8%nat -> same_window (p ++ rest) p.
Proof. intros L i Hi. apply byte_at_app_l. lia. Qed.

Lemma decode_packet_app (p rest : list Z) :
  length p = 8%nat -> decode_packet (p ++ rest) = decode_packet p.
Proof.
  intros L. unfold decode_packet.
  rewrite (parse_ext _ _ _ (same_window_app p rest L)). reflexivity.
Qed.

Lemma packet_valid_app (p rest : list Z) :
  length p = 8%nat ->
  sr_ut8802e_packet_valid (p ++ rest) = sr_ut8802e_packet_valid p.
Proof.
  intros L. apply packet_valid_ext; apply byte_at_app_l; lia.
Qed.

(** A window that the validator accepts is decoded: the parser never
    refuses it. *)
Lemma decode_packet_valid (w : list Z) :
  sr_ut8802e_packet_valid w = true ->
  exists m, decode_packet w = Some m.
Proof.
  intros V. unfold decode_packet, sr_ut8802e_parse. rewrite V. cbn [negb].
  unfold parse_value.
  destruct (handle_flags _ _ _) as [a v]. eexists. reflexivity.
Qed.

Lemma decode_packet_invalid (w : list Z) :
  sr_ut8802e_packet_valid w = false -> decode_packet w = None.
Proof.
  intros V. unfold decode_packet, sr_ut8802e_parse. rewrite V. reflexivity.
Qed.

Lemma at_offset_app (g rest : list Z) :
  at_offset (g ++ rest) (Z.of_nat (length g)) = rest.
Proof.
  unfold at_offset. rewrite Nat2Z.id, skipn_app, skipn_all, Nat.sub_diag.
  reflexivity.
Qed.

(** ** The copy loop *)

Lemma store_length (a : list Z) (i v : Z) (a' : list Z) :
  store a i v = Some a' -> length a' = length a.
Proof.
  unfold store. destruct ((0 <=? i) && (i <? Z.of_nat (length a))) eqn:E;
    [ | discriminate ].
  intros [= <-]. apply andb_prop in E. destruct E as [E1 E2].
  apply Z.leb_le in E1. apply Z.ltb_lt in E2.
  rewrite length_app, length_firstn. cbn [length]. rewrite length_skipn. lia.
Qed.

Lemma store_some_iff (a : list Z) (i v : Z) :
  (exists a', store a i v = Some a') <-> 0 <= i < Z.of_nat (length a).
Proof.
  unfold store. destruct ((0 <=? i) && (i <? Z.of_nat (length a))) eqn:E.
  - apply andb_prop in E. destruct E as [E1 E2].
    apply Z.leb_le in E1. apply Z.ltb_lt in E2.
    split; [ lia | intros _; eexists; reflexivity ].
  - apply andb_false_iff in E.
    split; [ intros [a' H]; discriminate | ].
    intros [H1 H2]. destruct E as [E | E].
    + apply Z.leb_gt in E. lia.
    + apply Z.ltb_ge in E. lia.
Qed.

Lemma load_some_iff (a : list Z) (i : Z) :
  (exists v, load a i = Some v) <-> 0 <= i < Z.of_nat (length a).
Proof.
  unfold load. destruct ((0 <=? i) && (i <? Z.of_nat (length a))) eqn:E.
  - apply andb_prop in E. destruct E as [E1 E2].
    apply Z.leb_le in E1. apply Z.ltb_lt in E2.
    split; [ lia | intros _; eexists; reflexivity ].
  - apply andb_false_iff in E.
    split; [ intros [a' H]; discriminate | ].
    intros [H1 H2]. destruct E as [E | E].
    + apply Z.leb_gt in E. lia.
    + apply Z.ltb_ge in E. lia.
Qed.

(** When the loop ends, it has added its [todo] bytes to the length and
    kept the size of the array. *)
Lemma append_loop_some (todo : nat) :
  forall (i : Z) (buf pbuf : list Z) (len : Z) (pbuf' : list Z) (len' : Z),
    append_loop todo i buf pbuf len = Some (pbuf', len') ->
    len' = len + Z.of_nat todo /\ length pbuf' = length pbuf.
Proof.
  induction todo as [ | k IH ]; intros i buf pbuf len pbuf' len' H.
  - cbn in H. injection H as <- <-. split; [ lia | reflexivity ].
  - cbn [append_loop] in H.
    destruct (load buf (1 + i)) as [v | ]; [ | discriminate ].
    destruct (store pbuf len v) as [q | ] eqn:S; [ | discriminate ].
    apply IH in H. destruct H as [H1 H2].
    rewrite (store_length _ _ _ _ S) in H2. split; [ lia | exact H2 ].
Qed.

(** The loop ends exactly when every read is inside the chunk and every
    write inside the packet buffer. *)
Lemma append_loop_defined_iff (todo : nat) :
  forall (i : Z) (buf pbuf : list Z) (len : Z),
    (exists r, append_loop todo i buf pbuf len = Some r)
    <-> (todo = 0%nat
         \/ (0 <= 1 + i /\ 1 + i + Z.of_nat todo <= Z.of_nat (length buf)
             /\ 0 <= len
             /\ len + Z.of_nat todo <= Z.of_nat (length pbuf))).
Proof.
  induction todo as [ | k IH ]; intros i buf pbuf len.
  - split; [ intros _; left; reflexivity | intros _; eexists; reflexivity ].
  - cbn [append_loop]. split.
    + intros [r H]. right.
      destruct (load buf (1 + i)) as [v | ] eqn:L; [ | discriminate ].
      destruct (store pbuf len v) as [q | ] eqn:S; [ | discriminate ].
      assert (HL : 0 <= 1 + i < Z.of_nat (length buf)).
      { apply load_some_iff. eexists; exact L. }
      assert (HS : 0 <= len < Z.of_nat (length pbuf)).
      { apply (store_some_iff pbuf len v). eexists; exact S. }
      assert (HI : exists r, append_loop k (i + 1) buf q (len + 1) = Some r).
      { eexists; exact H. }
      apply IH in HI. rewrite (store_length _ _ _ _ S) in HI. lia.
    + intros [H | (H1 & H2 & H3 & H4)]; [ discriminate | ].
      destruct (proj2 (load_some_iff buf (1 + i)) ltac:(lia)) as [v ->].
      destruct (proj2 (store_some_iff pbuf len v) ltac:(lia)) as [q S].
      rewrite S. apply IH. rewrite (store_length _ _ _ _ S).
      destruct k; [ left; reflexivity | right; lia ].
Qed.

Lemma chunk_of_length (received : list Z) :
  Z.of_nat (length (chunk_of received)) = CHUNK_SIZE.
Proof.
  unfold chunk_of. rewrite length_firstn, length_app, repeat_length.
  unfold CHUNK_SIZE. lia.
Qed.

(** ** The drain loop *)

Lemma drain_body (pbuf : list Z) (len off : Z)
    (sent : list sr_datafeed_packet) :
  drain pbuf len off sent =
  if UT8802E_PACKET_SIZE <=? len - off then
    if sr_ut8802e_packet_valid (at_offset pbuf off)
    then drain pbuf len (off + UT8802E_PACKET_SIZE)
           (sent ++ sent_by (decode_packet (at_offset pbuf off)))
    else drain pbuf len (off + 1) sent
  else (off, sent).
Proof.
  funelim (drain pbuf len off sent).
  - rewrite e. reflexivity.
  - rewrite e, e0. reflexivity.
  - rewrite e, e0. reflexivity.
Qed.

(** The loop is the iteration of [scan_step]. *)
Lemma drain_scan_step (pbuf : list Z) (len off : Z)
    (sent : list sr_datafeed_packet) :
  drain pbuf len off sent =
  if UT8802E_PACKET_SIZE <=? len - off then
    drain pbuf len (fst (scan_step pbuf off))
      (sent ++ sent_by (snd (scan_step pbuf off)))
  else (off, sent).
Proof.
  rewrite drain_body. unfold scan_step.
  destruct (UT8802E_PACKET_SIZE <=? len - off); [ | reflexivity ].
  destruct (sr_ut8802e_packet_valid (at_offset pbuf off)); cbn [fst snd].
  - reflexivity.
  - cbn [sent_by]. rewrite app_nil_r. reflexivity.
Qed.

(** The loop leaves fewer than a packet's bytes unconsumed, and never
    moves the offset backwards or past the end. *)
Lemma drain_bounds (pbuf : list Z) (len off : Z)
    (sent : list sr_datafeed_packet) :
  off <= fst (drain pbuf len off sent)
  /\ len - fst (drain pbuf len off sent) < UT8802E_PACKET_SIZE
  /\ (off <= len -> fst (drain pbuf len off sent) <= len).
Proof.
  funelim (drain pbuf len off sent).
  - pose proof (proj1 (Z.leb_gt _ _) e). cbn [fst]. lia.
  - pose proof (proj1 (Z.leb_le _ _) e). unfold UT8802E_PACKET_SIZE in *. lia.
  - pose proof (proj1 (Z.leb_le _ _) e). unfold UT8802E_PACKET_SIZE in *. lia.
Qed.

(** Over a run of windows that do not validate, the loop moves one byte at
    a time and sends nothing. *)
Lemma drain_skip (pbuf : list Z) (len : Z) (sent : list sr_datafeed_packet)
    (k : nat) :
  forall off : Z,
    (forall i, off <= i < off + Z.of_nat k ->
               sr_ut8802e_packet_valid (at_offset pbuf i) = false) ->
    off + Z.of_nat k + UT8802E_PACKET_SIZE <= len ->
    drain pbuf len off sent = drain pbuf len (off + Z.of_nat k) sent.
Proof.
  induction k as [ | k IH ]; intros off G L.
  - f_equal. lia.
  - rewrite drain_body.
    replace (UT8802E_PACKET_SIZE <=? len - off) with true
      by (symmetry; apply Z.leb_le; unfold UT8802E_PACKET_SIZE in *; lia).
    rewrite (G off) by lia.
    rewrite IH.
    + f_equal. lia.
    + intros i Hi. apply G. lia.
    + lia.
Qed.

Lemma firstn_exact (a b : list Z) : firstn (length a) (a ++ b) = a.
Proof.
  rewrite firstn_app, Nat.sub_diag, firstn_all. cbn [firstn].
  apply app_nil_r.
Qed.

(** C3.  A buffer of [N] bytes on which no window validates, then one
    packet, then [T < 8] more bytes: the loop steps one byte over each of
    the [N] windows, eight bytes over the packet, sends the packet's
    measurement and nothing else, and compaction leaves the [T] bytes. *)
Theorem drain_resynchronizes (garbage packet trailing rest : list Z) :
  let pbuf := garbage ++ packet ++ trailing ++ rest in
  let N := Z.of_nat (length garbage) in
  let T := Z.of_nat (length trailing) in
  let len := N + UT8802E_PACKET_SIZE + T in
  Z.of_nat (length packet) = UT8802E_PACKET_SIZE ->
  sr_ut8802e_packet_valid packet = true ->
  T < UT8802E_PACKET_SIZE ->
  (forall i, 0 <= i < N ->
             sr_ut8802e_packet_valid (at_offset pbuf i) = false) ->
  exists m : sr_datafeed_packet,
    decode_packet packet = Some m
    /\ (forall i, 0 <= i < N -> scan_step pbuf i = (i + 1, None))
    /\ scan_step pbuf N = (N + UT8802E_PACKET_SIZE, Some m)
    /\ drain pbuf len 0 [] = (N + UT8802E_PACKET_SIZE, [m])
    /\ snd (compact pbuf len (N + UT8802E_PACKET_SIZE)) = T
    /\ firstn (length trailing)
         (fst (compact pbuf len (N + UT8802E_PACKET_SIZE))) = trailing.
Proof.
  intros pbuf N T len LP V LT G.
  assert (LP' : length packet = 8%nat) by (unfold UT8802E_PACKET_SIZE in LP; lia).
  destruct (decode_packet_valid packet V) as [m D].
  assert (AN : at_offset pbuf N = packet ++ trailing ++ rest)
    by apply at_offset_app.
  assert (AT : at_offset pbuf (N + UT8802E_PACKET_SIZE) = trailing ++ rest).
  { unfold pbuf. rewrite (app_assoc garbage packet).
    replace (N + UT8802E_PACKET_SIZE)
      with (Z.of_nat (length (garbage ++ packet)))
      by (rewrite length_app; unfold N; lia).
    apply at_offset_app. }
  assert (VN : sr_ut8802e_packet_valid (at_offset pbuf N) = true).
  { rewrite AN, packet_valid_app; assumption. }
  assert (DN : decode_packet (at_offset pbuf N) = Some m).
  { rewrite AN, decode_packet_app; assumption. }
  exists m. split; [ exact D | ].
  split. { intros i Hi. unfold scan_step. rewrite (G i Hi). reflexivity. }
  split. { unfold scan_step. rewrite VN, DN. reflexivity. }
  split.
  { rewrite (drain_skip pbuf len [] (length garbage) 0).
    - change (0 + Z.of_nat (length garbage)) with N.
      rewrite drain_body.
      replace (UT8802E_PACKET_SIZE <=? len - N) with true
        by (symmetry; apply Z.leb_le; unfold len; lia).
      rewrite VN, DN, drain_body.
      replace (UT8802E_PACKET_SIZE <=? len - (N + UT8802E_PACKET_SIZE))
        with false
        by (symmetry; apply Z.leb_gt; unfold len; lia).
      reflexivity.
    - intros i Hi. apply G. unfold N. lia.
    - unfold len, N. lia. }
  unfold compact. cbn [fst snd]. split; [ unfold len; lia | ].
  destruct (N + UT8802E_PACKET_SIZE <? len) eqn:E.
  - unfold memmove_front. rewrite AT.
    replace (Z.to_nat (len - (N + UT8802E_PACKET_SIZE)))
      with (length trailing) by (unfold len, T; lia).
    rewrite !firstn_exact. reflexivity.
  - apply Z.ltb_ge in E.
    assert (length trailing = 0%nat) by (unfold len, T in E; lia).
    destruct trailing; [ reflexivity | discriminate ].
Qed.

Lemma drain_resynchronizes_witness :
  let garbage := [0x00; 0x13; 0x37] in
  let packet := [0xAC; 0x03; 0x34; 0x12; 0x00; 0x32; 0x00; 0x5a] in
  let trailing := [0xAC; 0x0b] in
  let rest := repeat 0 19 in
  exists m : sr_datafeed_packet,
    decode_packet packet = Some m
    /\ drain (garbage ++ packet ++ trailing ++ rest) 13 0 [] = (11, [m])
    /\ snd (compact (garbage ++ packet ++ trailing ++ rest) 13 11) = 2.
Proof.
  intros garbage packet trailing rest.
  destruct (drain_resynchronizes garbage packet trailing rest)
    as (m & D & _ & _ & R & C & _).
  - reflexivity.
  - reflexivity.
  - reflexivity.
  - intros i Hi.
    assert (i = 0 \/ i = 1 \/ i = 2) as [-> | [-> | ->]]
      by (change (Z.of_nat (length garbage)) with 3 in Hi; lia);
      reflexivity.
  - exists m. repeat split; assumption.
Defined.

(** ** The chunk handler *)

(** What the handler does once the HID chip is set up and the transfer
    succeeded with a chunk that declares data. *)
Lemma handler_on_data (devc : dev_context) (init_ret : sr_status)
    (xfer_ret : Z) (received : list Z) :
  init_fails devc init_ret = false ->
  0 <= xfer_ret ->
  declared_length received <> 0 ->
  get_and_handle_data devc init_ret xfer_ret received =
  let pbuf := if first_run devc then repeat 0 (length (protocol_buf devc))
              else protocol_buf devc in
  match append_chunk (chunk_of received) pbuf (buflen devc) with
  | None => None
  | Some (pbuf, len) =>
      let '(off, sent) := drain pbuf len 0 [] in
      let '(pbuf, len') := compact pbuf len off in
      Some (SR_OK, mk_devc false pbuf len' off, sent)
  end.
Proof.
  intros I X D. unfold get_and_handle_data.
  fold (init_fails devc init_ret). rewrite I.
  replace (xfer_ret <? 0) with false by (symmetry; apply Z.ltb_ge; exact X).
  fold (declared_length received).
  replace (declared_length received =? 0) with false
    by (symmetry; apply Z.eqb_neq; exact D).
  reflexivity.
Qed.

(** The handler reports a failure exactly when the chip set-up or the
    transfer failed. *)
Lemma handler_error_iff (devc : dev_context) (init_ret : sr_status)
    (xfer_ret : Z) (received : list Z) :
  returns_error (get_and_handle_data devc init_ret xfer_ret received)
  = init_fails devc init_ret || (xfer_ret <? 0).
Proof.
  unfold get_and_handle_data. fold (init_fails devc init_ret).
  destruct (init_fails devc init_ret); [ reflexivity | ].
  destruct (xfer_ret <? 0); [ reflexivity | ].
  destruct (byte_at (chunk_of received) 0 =? 0); [ reflexivity | ].
  destruct (append_chunk _ _ _) as [ [pbuf len] | ]; [ | reflexivity ].
  destruct (drain pbuf len 0 []) as [off sent].
  destruct (compact pbuf len off) as [pbuf' len']. reflexivity.
Qed.

Lemma zeroed_length (devc : dev_context) :
  length (if first_run devc then repeat 0 (length (protocol_buf devc))
          else protocol_buf devc)
  = length (protocol_buf devc).
Proof. destruct (first_run devc); [ apply repeat_length | reflexivity ]. Qed.

(** The copy of a chunk ends exactly when the chunk is empty or fits. *)
Lemma append_chunk_defined_iff (received pbuf : list Z) (len : Z) :
  (exists r, append_chunk (chunk_of received) pbuf len = Some r)
  <-> (declared_length received <= 0
       \/ (declared_length received < CHUNK_SIZE
           /\ 0 <= len
           /\ len + declared_length received <= Z.of_nat (length pbuf))).
Proof.
  unfold append_chunk. fold (declared_length received).
  rewrite append_loop_defined_iff, chunk_of_length.
  unfold CHUNK_SIZE. lia.
Qed.

Lemma append_chunk_length (received pbuf : list Z) (len : Z)
    (pbuf' : list Z) (len' : Z) :
  append_chunk (chunk_of received) pbuf len = Some (pbuf', len') ->
  len' = len + Z.max 0 (declared_length received)
  /\ length pbuf' = length pbuf.
Proof.
  unfold append_chunk. fold (declared_length received). intros H.
  apply append_loop_some in H. lia.
Qed.

(** C10.  With at most 7 bytes in the buffer on entry and a chunk that
    declares 0 to 7 data bytes, every return of the handler leaves at most 7
    bytes in the buffer; and the handler does return as soon as the array
    has room for the 14 bytes that this needs. *)
Theorem handler_keeps_buflen_below_packet_size (devc : dev_context)
    (init_ret : sr_status) (xfer_ret : Z) (received : list Z) :
  0 <= buflen devc < UT8802E_PACKET_SIZE ->
  0 <= declared_length received <= 7 ->
  (forall ret devc' sent,
      get_and_handle_data devc init_ret xfer_ret received
      = Some (ret, devc', sent) ->
      0 <= buflen devc' < UT8802E_PACKET_SIZE)
  /\ (14 <= DMM_BUFSIZE devc ->
      exists ret devc' sent,
        get_and_handle_data devc init_ret xfer_ret received
        = Some (ret, devc', sent)).
Proof.
  intros B D.
  destruct (init_fails devc init_ret) eqn:I.
  { unfold get_and_handle_data. fold (init_fails devc init_ret). rewrite I.
    split.
    - intros ret devc' sent [= <- <- <-]. exact B.
    - intros _. do 3 eexists. reflexivity. }
  destruct (xfer_ret <? 0) eqn:X.
  { unfold get_and_handle_data. fold (init_fails devc init_ret).
    rewrite I, X. split.
    - intros ret devc' sent [= <- <- <-]. exact B.
    - intros _. do 3 eexists. reflexivity. }
  apply Z.ltb_ge in X.
  destruct (Z.eq_dec (declared_length received) 0) as [Z0 | NZ].
  { unfold get_and_handle_data. fold (init_fails devc init_ret).
    fold (declared_length received).
    rewrite I, Z0. replace (xfer_ret <? 0) with false
      by (symmetry; apply Z.ltb_ge; exact X).
    cbn [Z.eqb]. split.
    - intros ret devc' sent [= <- <- <-]. exact B.
    - intros _. do 3 eexists. reflexivity. }
  rewrite (handler_on_data devc init_ret xfer_ret received I X NZ).
  cbv zeta.
  set (pbuf0 := if first_run devc then _ else _).
  assert (L0 : length pbuf0 = length (protocol_buf devc))
    by apply zeroed_length.
  destruct (append_chunk (chunk_of received) pbuf0 (buflen devc))
    as [ [pbuf len] | ] eqn:A.
  - apply append_chunk_length in A as AL. destruct AL as [AL _].
    pose proof (drain_bounds pbuf len 0 []) as (B1 & B2 & B3).
    destruct (drain pbuf len 0 []) as [off sent]. cbn [fst] in *.
    unfold compact. split.
    + intros ret devc' sent' [= <- <- <-]. cbn [buflen]. lia.
    + intros _. do 3 eexists. reflexivity.
  - split; [ intros ret devc' sent [=] | ].
    intros C. exfalso.
    destruct (proj2 (append_chunk_defined_iff received pbuf0 (buflen devc)))
      as [r R].
    + right. rewrite L0. unfold DMM_BUFSIZE, CHUNK_SIZE, UT8802E_PACKET_SIZE in *.
      lia.
    + rewrite A in R. discriminate R.
Qed.

Lemma handler_keeps_buflen_below_packet_size_witness :
  let devc := mk_devc false
                ([0xAC; 0x2c; 0x00; 0x05; 0x00] ++ repeat 0 27) 5 0 in
  let received := [0x05; 0x31; 0x00; 0x00; 0xAC; 0x03] in
  exists ret devc' sent,
    get_and_handle_data devc SR_OK 0 received = Some (ret, devc', sent)
    /\ 0 <= buflen devc' < UT8802E_PACKET_SIZE.
Proof.
  intros devc received.
  destruct (handler_keeps_buflen_below_packet_size devc SR_OK 0 received)
    as [P R].
  - change (0 <= 5 < 8). lia.
  - change (0 <= 5 <= 7). lia.
  - destruct R as (ret & devc' & sent & E).
    + change (14 <= 32). lia.
    + exists ret, devc', sent. split; [ exact E | exact (P _ _ _ E) ].
Defined.




(** ** Binary32: digits and shifts

    [SpecFloat] comes with definitions only.  What the parser needs of its
    rounding is proved here, at the binary32 parameters: the result of a
    rounding is a binary32 number, and a number that is one already is left
    as it is. *)

Lemma fexp32_eq (k : Z) : fexp32 k = Z.max (k - 24) (-149).
Proof. reflexivity. Qed.

Lemma fexp32_mono (a b : Z) : a <= b -> fexp32 a <= fexp32 b.
Proof. rewrite !fexp32_eq. lia. Qed.

Lemma digits2_pos_size (p : positive) : digits2_pos p = Pos.size p.
Proof. induction p as [ p IH | p IH | ]; cbn; rewrite ?IH; reflexivity. Qed.

Lemma Zdigits2_log2 (m : Z) : 0 < m -> Zdigits2 m = Z.log2 m + 1.
Proof.
  destruct m as [ | p | p ]; try lia. intros _.
  destruct p as [ p | p | ]; cbn [Zdigits2 digits2_pos Z.log2];
    rewrite ?digits2_pos_size; lia.
Qed.

Lemma Zdigits2_nonneg (m : Z) : 0 <= m -> 0 <= Zdigits2 m.
Proof. destruct m; cbn; lia. Qed.

Lemma Zdigits2_pos (m : Z) : 0 < m -> 0 < Zdigits2 m.
Proof. destruct m; cbn; lia. Qed.

Lemma Zdigits2_mono (a b : Z) : 0 <= a <= b -> Zdigits2 a <= Zdigits2 b.
Proof.
  intros [Ha Hab]. destruct (Z.eq_dec a 0) as [-> | Na].
  - apply Zdigits2_nonneg. lia.
  - rewrite !Zdigits2_log2 by lia.
    pose proof (Z.log2_le_mono a b Hab). lia.
Qed.

Lemma Zdigits2_lower (q k : Z) : 0 < k -> 2 ^ (k - 1) <= q -> k <= Zdigits2 q.
Proof.
  intros Hk Hq.
  assert (0 < q) by (pose proof (Z.pow_pos_nonneg 2 (k - 1)); lia).
  rewrite Zdigits2_log2 by lia.
  pose proof (Z.log2_le_mono _ _ Hq) as M.
  rewrite Z.log2_pow2 in M by lia. lia.
Qed.

Lemma Zdigits2_mul_pow2 (m k : Z) :
  0 < m -> 0 <= k -> Zdigits2 (m * 2 ^ k) = Zdigits2 m + k.
Proof.
  intros Hm Hk.
  assert (0 < m * 2 ^ k) by (pose proof (Z.pow_pos_nonneg 2 k); nia).
  rewrite !Zdigits2_log2 by lia. rewrite Z.log2_mul_pow2 by lia. lia.
Qed.

(** Dividing by [2 ^ n] takes [n] digits away, as long as some are left. *)
Lemma Zdigits2_div_pow2 (m n : Z) :
  0 < m -> 0 <= n < Zdigits2 m ->
  0 < m / 2 ^ n /\ Zdigits2 (m / 2 ^ n) = Zdigits2 m - n.
Proof.
  intros Hm Hn. rewrite Zdigits2_log2 in Hn by lia.
  assert (P : 0 < m / 2 ^ n).
  { apply Z.div_str_pos. split; [ apply Z.pow_pos_nonneg; lia | ].
    transitivity (2 ^ Z.log2 m).
    - apply Z.pow_le_mono_r; lia.
    - apply Z.log2_spec. exact Hm. }
  split; [ exact P | ].
  rewrite !Zdigits2_log2 by lia.
  rewrite <- Z.shiftr_div_pow2 by lia.
  rewrite Z.log2_shiftr by lia. lia.
Qed.

(** Dividing by [2 ^ n] leaves nothing when [n] is the number of digits or
    more. *)
Lemma div_pow2_small (m n : Z) :
  0 <= m -> Zdigits2 m <= n -> m / 2 ^ n = 0.
Proof.
  intros Hm Hn. destruct (Z.eq_dec m 0) as [-> | Nm].
  - apply Z.div_0_l. pose proof (Zdigits2_nonneg 0). 
    assert (0 < 2 ^ n) by (apply Z.pow_pos_nonneg; cbn in Hn; lia). lia.
  - rewrite Zdigits2_log2 in Hn by lia.
    apply Z.div_small. split; [ lia | ].
    apply Z.lt_le_trans with (2 ^ (Z.succ (Z.log2 m))).
    + apply Z.log2_spec. lia.
    + apply Z.pow_le_mono_r; lia.
Qed.

(** *** The shift of a mantissa to the right *)

Lemma iter_pos_nat {A : Type} (f : A -> A) (p : positive) :
  forall x : A, iter_pos f p x = Nat.iter (Pos.to_nat p) f x.
Proof.
  induction p as [ p IH | p IH | ]; intros x; cbn [iter_pos].
  - rewrite !IH, Pos2Nat.inj_xI.
    replace (S (2 * Pos.to_nat p))
      with (Pos.to_nat p + (Pos.to_nat p + 1))%nat by lia.
    rewrite !Nat.iter_add. reflexivity.
  - rewrite !IH, Pos2Nat.inj_xO.
    replace (2 * Pos.to_nat p)%nat
      with (Pos.to_nat p + Pos.to_nat p)%nat by lia.
    rewrite Nat.iter_add. reflexivity.
  - reflexivity.
Qed.

Lemma shr_1_spec (mrs : shr_record) :
  0 <= shr_m mrs ->
  shr_1 mrs
  = Build_shr_record (shr_m mrs / 2) (Z.odd (shr_m mrs))
      (shr_r mrs || shr_s mrs).
Proof.
  destruct mrs as [m r s]. cbn [shr_m shr_r shr_s]. intros Hm.
  destruct m as [ | [ p | p | ] | p ]; try lia; cbn [shr_1 Z.odd].
  - reflexivity.
  - rewrite Pos2Z.inj_xI.
    replace (2 * Z.pos p + 1) with (1 + Z.pos p * 2) by lia.
    rewrite Z.div_add by lia. reflexivity.
  - rewrite Pos2Z.inj_xO, Z.mul_comm, Z.div_mul by lia. reflexivity.
  - reflexivity.
Qed.

Lemma iter_shr_1_m (n : nat) (mrs : shr_record) :
  0 <= shr_m mrs ->
  shr_m (Nat.iter n shr_1 mrs) = shr_m mrs / 2 ^ Z.of_nat n.
Proof.
  intros Hm. induction n as [ | n IH ].
  - cbn. rewrite Z.div_1_r. reflexivity.
  - rewrite Nat.iter_succ, shr_1_spec.
    + cbn [shr_m]. rewrite IH.
      rewrite Z.div_div by (try apply Z.pow_nonzero; lia).
      rewrite Nat2Z.inj_succ, Z.pow_succ_r by lia.
      rewrite Z.mul_comm. reflexivity.
    + rewrite IH. apply Z.div_pos; [ lia | apply Z.pow_pos_nonneg; lia ].
Qed.

(** Shifting out [n] zero bits is exact. *)
Lemma iter_shr_1_exact (n : nat) (m : Z) :
  0 <= m ->
  Nat.iter n shr_1 (Build_shr_record (m * 2 ^ Z.of_nat n) false false)
  = Build_shr_record m false false.
Proof.
  intros Hm. induction n as [ | n IH ].
  - cbn. f_equal. lia.
  - rewrite Nat.iter_succ_r, shr_1_spec.
    + cbn [shr_m shr_r shr_s orb].
      rewrite Nat2Z.inj_succ, Z.pow_succ_r by lia.
      replace (m * (2 * 2 ^ Z.of_nat n)) with (m * 2 ^ Z.of_nat n * 2) by lia.
      rewrite Z.div_mul by lia.
      rewrite Z.odd_mul. cbn [Z.odd]. rewrite andb_false_r. exact IH.
    + cbn [shr_m]. pose proof (Z.pow_pos_nonneg 2 (Z.of_nat (S n))). nia.
Qed.

Lemma shr_record_of_loc_m (m : Z) (l : location) :
  shr_m (shr_record_of_loc m l) = m.
Proof. destruct l as [ | [ | | ] ]; reflexivity. Qed.

Lemma shr_spec (mrs : shr_record) (e n : Z) :
  0 <= n -> shr mrs e n = (Nat.iter (Z.to_nat n) shr_1 mrs, e + n).
Proof.
  intros Hn. destruct n as [ | p | p ]; try lia; cbn [shr].
  - cbn. rewrite Z.add_0_r. reflexivity.
  - rewrite iter_pos_nat. reflexivity.
Qed.

(** The first component of [shr_fexp]: the mantissa divided by the power of
    two that brings the exponent to [fexp32]. *)
Lemma shr_fexp_spec (m e : Z) (l : location) :
  0 <= m ->
  e <= fexp32 (Zdigits2 m + e) ->
  snd (shr_fexp f32_prec f32_emax m e l) = fexp32 (Zdigits2 m + e)
  /\ shr_m (fst (shr_fexp f32_prec f32_emax m e l))
     = m / 2 ^ (fexp32 (Zdigits2 m + e) - e).
Proof.
  intros Hm He. unfold shr_fexp. fold (fexp32 (Zdigits2 m + e)).
  rewrite shr_spec by lia. cbn [fst snd]. split; [ lia | ].
  rewrite iter_shr_1_m by (rewrite shr_record_of_loc_m; exact Hm).
  rewrite shr_record_of_loc_m, Z2Nat.id by lia. reflexivity.
Qed.

Lemma shr_fexp_canonical (m e : Z) (l : location) :
  0 < m ->
  e <= fexp32 (Zdigits2 m + e) ->
  -149 < Zdigits2 m + e ->
  0 < shr_m (fst (shr_fexp f32_prec f32_emax m e l))
  /\ fexp32 (Zdigits2 (shr_m (fst (shr_fexp f32_prec f32_emax m e l)))
             + snd (shr_fexp f32_prec f32_emax m e l))
     = snd (shr_fexp f32_prec f32_emax m e l).
Proof.
  intros Hm He Hd.
  destruct (shr_fexp_spec m e l ltac:(lia) He) as [-> ->].
  set (e' := fexp32 (Zdigits2 m + e)) in *.
  assert (N : 0 <= e' - e < Zdigits2 m).
  { unfold e' in *. rewrite fexp32_eq in *. lia. }
  destruct (Zdigits2_div_pow2 m (e' - e) Hm N) as [P D].
  split; [ exact P | ]. rewrite D.
  replace (Zdigits2 m - (e' - e) + e') with (Zdigits2 m + e) by lia.
  reflexivity.
Qed.

Lemma round_nearest_even_bounds (m : Z) (l : location) :
  m <= round_nearest_even m l <= m + 1.
Proof.
  destruct l as [ | [ | | ] ]; cbn [round_nearest_even];
    try destruct (Z.even m); lia.
Qed.

(** The outcome of a rounding: never a NaN, and a binary32 number. *)
Lemma binary_round_aux_valid (s : bool) (m e : Z) (l : location) :
  0 <= m ->
  e <= fexp32 (Zdigits2 m + e) ->
  f32_valid (binary_round_aux f32_prec f32_emax s m e l) = true
  /\ f32_is_nan (binary_round_aux f32_prec f32_emax s m e l) = false.
Proof.
  intros Hm He. unfold binary_round_aux.
  destruct (shr_fexp_spec m e l Hm He) as [E1 M1].
  destruct (shr_fexp f32_prec f32_emax m e l) as [mrs1 e1].
  cbn [fst snd] in E1, M1.
  set (m1' := round_nearest_even (shr_m mrs1) (loc_of_shr_record mrs1)).
  pose proof (round_nearest_even_bounds (shr_m mrs1) (loc_of_shr_record mrs1))
    as RB. fold m1' in RB.
  assert (P1 : 0 <= shr_m mrs1).
  { rewrite M1. apply Z.div_pos; [ lia | apply Z.pow_pos_nonneg; lia ]. }
  assert (K : 0 < m1' ->
              e1 <= fexp32 (Zdigits2 m1' + e1) /\ -149 < Zdigits2 m1' + e1).
  { intros P. pose proof (Zdigits2_pos m1' P).
    split; [ | rewrite E1, fexp32_eq; lia ].
    destruct (Z.eq_dec (shr_m mrs1) 0) as [Z1 | NZ1].
    - (* everything was shifted out: the exponent is the smallest one *)
      assert (Zdigits2 m <= fexp32 (Zdigits2 m + e) - e).
      { destruct (Z.eq_dec m 0) as [-> | Nm]; [ cbn [Zdigits2] in *; lia | ].
        destruct (Z_lt_le_dec (fexp32 (Zdigits2 m + e) - e) (Zdigits2 m))
          as [Lt | Le]; [ exfalso | exact Le ].
        destruct (Zdigits2_div_pow2 m (fexp32 (Zdigits2 m + e) - e))
          as [Q _]; [ lia | lia | ].
        rewrite <- M1 in Q. lia. }
      rewrite fexp32_eq in *. lia.
    - assert (N : 0 <= e1 - e < Zdigits2 m).
      { split; [ lia | ].
        destruct (Z_lt_le_dec (e1 - e) (Zdigits2 m)) as [Lt | Le];
          [ exact Lt | exfalso ].
        apply NZ1. rewrite M1. apply div_pow2_small; lia. }
      assert (Pm : 0 < m).
      { destruct (Z.eq_dec m 0) as [-> | ]; [ cbn in N; lia | lia ]. }
      destruct (Zdigits2_div_pow2 m (e1 - e) Pm N) as [Q D].
      rewrite <- E1 in M1. rewrite <- M1 in D.
      pose proof (Zdigits2_mono (shr_m mrs1) m1' ltac:(lia)) as Mo.
      transitivity (fexp32 (Zdigits2 (shr_m mrs1) + e1)).
      + rewrite D. replace (Zdigits2 m - (e1 - e) + e1) with (Zdigits2 m + e)
          by lia. lia.
      + apply fexp32_mono. lia. }
  destruct (Z.eq_dec m1' 0) as [Z' | NZ'].
  - rewrite Z'. unfold shr_fexp. cbn [Zdigits2 shr_record_of_loc].
    destruct (shr _ e1 _) as [mrs2 e2] eqn:S2.
    assert (shr_m mrs2 = 0).
    { unfold shr in S2. destruct (fexp f32_prec f32_emax (0 + e1) - e1);
        [ injection S2 as <- _; reflexivity | | injection S2 as <- _; reflexivity ].
      injection S2 as <- _. rewrite iter_pos_nat, iter_shr_1_m by (cbn; lia).
      cbn [shr_m]. apply Z.div_0_l. apply Z.pow_nonzero; lia. }
    rewrite H. split; reflexivity.
  - assert (P' : 0 < m1') by lia.
    destruct (K P') as [K1 K2].
    destruct (shr_fexp_canonical m1' e1 loc_Exact P' K1 K2) as [P2 C2].
    destruct (shr_fexp f32_prec f32_emax m1' e1 loc_Exact) as [mrs2 e2].
    cbn [fst snd] in P2, C2.
    destruct (shr_m mrs2) as [ | m2 | m2 ]; try lia.
    destruct (e2 <=? f32_emax - f32_prec) eqn:B; [ | split; reflexivity ].
    split; [ | reflexivity ].
    unfold f32_valid, valid_binary, bounded, canonical_mantissa.
    rewrite B, andb_true_r. apply Z.eqb_eq. exact C2.
Qed.

(** *** Numbers that need no rounding *)

Lemma bounded_canonical (mx : positive) (ex : Z) :
  bounded f32_prec f32_emax mx ex = true ->
  fexp32 (Zdigits2 (Z.pos mx) + ex) = ex /\ ex <= 104.
Proof.
  unfold bounded, canonical_mantissa. intros B.
  apply andb_prop in B. destruct B as [C L].
  apply Z.eqb_eq in C. apply Z.leb_le in L.
  split; [ exact C | exact L ].
Qed.

(** A binary32 number written with [k] more bits and an exponent [k]
    lower rounds to itself. *)
Lemma binary_round_aux_exact (s : bool) (mx : positive) (ex k : Z) :
  bounded f32_prec f32_emax mx ex = true ->
  0 <= k ->
  binary_round_aux f32_prec f32_emax s (Z.pos mx * 2 ^ k) (ex - k) loc_Exact
  = S754_finite s mx ex.
Proof.
  intros B Hk. destruct (bounded_canonical mx ex B) as [C L].
  assert (S1 : shr_fexp f32_prec f32_emax (Z.pos mx * 2 ^ k) (ex - k) loc_Exact
               = (Build_shr_record (Z.pos mx) false false, ex)).
  { unfold shr_fexp. fold (fexp32 (Zdigits2 (Z.pos mx * 2 ^ k) + (ex - k))).
    rewrite Zdigits2_mul_pow2 by lia.
    replace (Zdigits2 (Z.pos mx) + k + (ex - k))
      with (Zdigits2 (Z.pos mx) + ex) by lia.
    rewrite C. replace (ex - (ex - k)) with k by lia.
    rewrite shr_spec by lia. cbn [shr_record_of_loc].
    pose proof (iter_shr_1_exact (Z.to_nat k) (Z.pos mx) ltac:(lia)) as I.
    rewrite Z2Nat.id in I by lia. rewrite I. f_equal. lia. }
  assert (S2 : shr_fexp f32_prec f32_emax (Z.pos mx) ex loc_Exact
               = (Build_shr_record (Z.pos mx) false false, ex)).
  { unfold shr_fexp. fold (fexp32 (Zdigits2 (Z.pos mx) + ex)).
    rewrite C, Z.sub_diag. reflexivity. }
  unfold binary_round_aux. rewrite S1.
  cbn [shr_m loc_of_shr_record round_nearest_even]. rewrite S2.
  cbn [shr_m].
  replace (ex <=? f32_emax - f32_prec) with true
    by (symmetry; apply Z.leb_le; exact L).
  reflexivity.
Qed.

Lemma f32_of_int_1 : f32_of_int 1 = S754_finite false 8388608 (-23).
Proof. reflexivity. Qed.

Lemma f32_of_int_minus_1 : f32_of_int (-1) = S754_finite true 8388608 (-23).
Proof. reflexivity. Qed.

(** Multiplication by [1] and by [-1]. *)
Lemma f32_mul_1 (x : float32) :
  f32_valid x = true -> f32_mul x (f32_of_int 1) = x.
Proof.
  intros V. rewrite f32_of_int_1.
  destruct x as [ s | s | | s mx ex ]; cbn [f32_mul SFmul];
    try (rewrite xorb_false_r; reflexivity); try reflexivity.
  unfold f32_mul, SFmul. rewrite xorb_false_r.
  change (Z.pos (mx * 8388608)) with (Z.pos mx * 2 ^ 23).
  change (ex + -23) with (ex - 23).
  apply binary_round_aux_exact; [ exact V | lia ].
Qed.

Lemma f32_mul_minus_1 (x : float32) :
  f32_valid x = true -> f32_mul x (f32_of_int (-1)) = f32_opp x.
Proof.
  intros V. rewrite f32_of_int_minus_1.
  destruct x as [ s | s | | s mx ex ]; cbn [f32_mul SFmul f32_opp SFopp];
    try (rewrite xorb_true_r; reflexivity); try reflexivity.
  unfold f32_mul, SFmul. rewrite xorb_true_r.
  change (Z.pos (mx * 8388608)) with (Z.pos mx * 2 ^ 23).
  change (ex + -23) with (ex - 23).
  apply binary_round_aux_exact; [ exact V | lia ].
Qed.

(** *** Division *)

Lemma div_eucl_div_mod (a b : Z) : Z.div_eucl a b = (a / b, a mod b).
Proof.
  unfold Z.div, Z.modulo. destruct (Z.div_eucl a b). reflexivity.
Qed.

(** The core of the division, with its shift written as a product. *)
Lemma SFdiv_core_binary_spec (m1 m2 : positive) (e1 e2 : Z) :
  let e' := Z.min (fexp32 (Zdigits2 (Z.pos m1) + e1
                           - (Zdigits2 (Z.pos m2) + e2))) (e1 - e2) in
  let s := e1 - e2 - e' in
  0 <= s
  /\ SFdiv_core_binary f32_prec f32_emax (Z.pos m1) e1 (Z.pos m2) e2
     = (Z.pos m1 * 2 ^ s / Z.pos m2, e',
        new_location (Z.pos m2) (Z.pos m1 * 2 ^ s mod Z.pos m2)).
Proof.
  intros e' s. assert (Hs : 0 <= s) by (unfold s, e'; lia).
  split; [ exact Hs | ].
  unfold SFdiv_core_binary.
  fold (fexp32 (Zdigits2 (Z.pos m1) + e1 - (Zdigits2 (Z.pos m2) + e2))).
  fold e'. fold s.
  assert (M : match s with
              | 0 => Z.pos m1
              | Z.pos _ => Z.shiftl (Z.pos m1) s
              | Z.neg _ => 0
              end = Z.pos m1 * 2 ^ s).
  { destruct s as [ | p | p ] eqn:E; try lia.
    rewrite Z.shiftl_mul_pow2 by lia. reflexivity. }
  rewrite M, div_eucl_div_mod. reflexivity.
Qed.

(** A quotient of two finite numbers is a binary32 number, whatever the
    two mantissas are. *)
Lemma SFdiv_core_binary_valid (s : bool) (m1 m2 : positive) (e1 e2 : Z) :
  let '(mz, ez, lz) :=
    SFdiv_core_binary f32_prec f32_emax (Z.pos m1) e1 (Z.pos m2) e2 in
  f32_valid (binary_round_aux f32_prec f32_emax s mz ez lz) = true
  /\ f32_is_nan (binary_round_aux f32_prec f32_emax s mz ez lz) = false.
Proof.
  destruct (SFdiv_core_binary_spec m1 m2 e1 e2) as [Hs ->].
  set (d1 := Zdigits2 (Z.pos m1)) in *. set (d2 := Zdigits2 (Z.pos m2)) in *.
  set (e' := Z.min (fexp32 (d1 + e1 - (d2 + e2))) (e1 - e2)) in *.
  set (sh := e1 - e2 - e') in *.
  set (q := Z.pos m1 * 2 ^ sh / Z.pos m2).
  assert (P2 : 0 < 2 ^ sh) by (apply Z.pow_pos_nonneg; lia).
  assert (Q0 : 0 <= q) by (apply Z.div_pos; nia).
  apply binary_round_aux_valid; [ exact Q0 | ].
  transitivity (fexp32 (d1 + e1 - (d2 + e2))); [ unfold e'; lia | ].
  apply fexp32_mono.
  assert (D : d1 - d2 + sh <= Zdigits2 q).
  { destruct (Z_le_gt_dec (d1 - d2 + sh) 0) as [Le | Gt].
    - pose proof (Zdigits2_nonneg q Q0). lia.
    - apply Zdigits2_lower; [ lia | ].
      apply Z.div_le_lower_bound; [ lia | ].
      (* 2^(d1-1) <= m1 and m2 < 2^d2 *)
      assert (B1 : 2 ^ (d1 - 1) <= Z.pos m1).
      { unfold d1. rewrite Zdigits2_log2 by lia.
        replace (Z.log2 (Z.pos m1) + 1 - 1) with (Z.log2 (Z.pos m1)) by lia.
        apply Z.log2_spec. lia. }
      assert (B2 : Z.pos m2 < 2 ^ d2).
      { unfold d2. rewrite Zdigits2_log2 by lia. apply Z.log2_spec. lia. }
      assert (D1 : 0 < d1) by (apply Zdigits2_pos; lia).
      assert (D2 : 0 < d2) by (apply Zdigits2_pos; lia).
      replace (d1 - d2 + sh - 1) with (d1 - 1 + sh - d2) by lia.
      assert (E : 2 ^ (d1 - 1 + sh) = 2 ^ (d1 - 1 + sh - d2) * 2 ^ d2).
      { rewrite <- Z.pow_add_r by lia. f_equal. lia. }
      assert (E2 : 2 ^ (d1 - 1 + sh) = 2 ^ (d1 - 1) * 2 ^ sh).
      { rewrite <- Z.pow_add_r by lia. reflexivity. }
      assert (0 < 2 ^ (d1 - 1 + sh - d2)) by (apply Z.pow_pos_nonneg; lia).
      nia. }
  lia.
Qed.

Lemma f32_div_valid (x y : float32) :
  f32_valid (f32_div x y) = true.
Proof.
  destruct x as [ sx | sx | | sx mx ex ], y as [ sy | sy | | sy my ey ];
    try reflexivity.
  unfold f32_div, SFdiv.
  pose proof (SFdiv_core_binary_valid (xorb sx sy) mx my ex ey) as V.
  destruct (SFdiv_core_binary _ _ _ _ _ _) as [ [mz ez] lz ].
  apply V.
Qed.

Lemma f32_div_finite_not_nan (sx sy : bool) (mx my : positive) (ex ey : Z) :
  f32_is_nan (f32_div (S754_finite sx mx ex) (S754_finite sy my ey)) = false.
Proof.
  unfold f32_div, SFdiv.
  pose proof (SFdiv_core_binary_valid (xorb sx sy) mx my ex ey) as V.
  destruct (SFdiv_core_binary _ _ _ _ _ _) as [ [mz ez] lz ].
  apply V.
Qed.

(** Division by [1]. *)
Lemma f32_div_1 (x : float32) :
  f32_valid x = true -> f32_div x (f32_of_int 1) = x.
Proof.
  intros V. rewrite f32_of_int_1.
  destruct x as [ s | s | | s mx ex ]; cbn [f32_div SFdiv];
    try (rewrite xorb_false_r; reflexivity); try reflexivity.
  unfold f32_div, SFdiv.
  destruct (SFdiv_core_binary_spec mx 8388608 ex (-23)) as [Hs ->].
  destruct (bounded_canonical mx ex V) as [C L].
  change (Zdigits2 8388608) with 24 in *.
  set (e' := Z.min (fexp32 (Zdigits2 (Z.pos mx) + ex - (24 + -23)))
               (ex - -23)) in *.
  set (sh := ex - -23 - e') in *.
  assert (E : e' <= ex).
  { unfold e'. pose proof (fexp32_mono (Zdigits2 (Z.pos mx) + ex - (24 + -23))
                             (Zdigits2 (Z.pos mx) + ex) ltac:(lia)). lia. }
  assert (K : sh = 23 + (ex - e')) by (unfold sh; lia).
  assert (P : Z.pos mx * 2 ^ sh = Z.pos mx * 2 ^ (ex - e') * 8388608).
  { rewrite K, Z.pow_add_r by lia. change (2 ^ 23) with 8388608. lia. }
  rewrite P, Z.div_mul, Z.mod_mul by lia.
  change (new_location 8388608 0) with loc_Exact.
  rewrite xorb_false_r.
  replace e' with (ex - (ex - e')) at 2 by lia.
  apply binary_round_aux_exact; [ exact V | lia ].
Qed.

(** *** Conversion from [int] *)

Lemma pos_iter_xO (m d : positive) :
  Z.pos (Pos.iter xO m d) = Z.pos m * 2 ^ Z.pos d.
Proof.
  induction d as [ | d IH ] using Pos.peano_ind.
  - cbn [Pos.iter]. rewrite Pos2Z.inj_xO. change (2 ^ 1) with 2. lia.
  - rewrite Pos.iter_succ, Pos2Z.inj_xO, IH, Pos2Z.inj_succ, Z.pow_succ_r
      by lia. lia.
Qed.

Lemma binary_round_valid (s : bool) (m : positive) (e : Z) :
  f32_valid (binary_round f32_prec f32_emax s m e) = true
  /\ f32_is_nan (binary_round f32_prec f32_emax s m e) = false.
Proof.
  unfold binary_round, shl_align.
  change (Z.pos (digits2_pos m)) with (Zdigits2 (Z.pos m)).
  fold (fexp32 (Zdigits2 (Z.pos m) + e)).
  destruct (fexp32 (Zdigits2 (Z.pos m) + e) - e) as [ | p | p ] eqn:E.
  - apply binary_round_aux_valid; lia.
  - apply binary_round_aux_valid; lia.
  - apply binary_round_aux_valid; [ lia | ].
    rewrite pos_iter_xO, Zdigits2_mul_pow2 by lia.
    replace (Zdigits2 (Z.pos m) + Z.pos p + fexp32 (Zdigits2 (Z.pos m) + e))
      with (Zdigits2 (Z.pos m) + e) by lia.
    lia.
Qed.

Lemma f32_of_int_valid (n : Z) :
  f32_valid (f32_of_int n) = true /\ f32_is_nan (f32_of_int n) = false.
Proof.
  destruct n as [ | p | p ]; unfold f32_of_int, binary_normalize.
  - split; reflexivity.
  - apply binary_round_valid.
  - apply binary_round_valid.
Qed.

(** *** The values of [parse_value] *)

Lemma pv_exponent_range (buf : list Z) : 0 <= pv_exponent buf <= 15.
Proof.
  unfold pv_exponent.
  assert (E : Z.land (byte_at buf 5) 0xf = byte_at buf 5 mod 16)
    by (apply (Z.land_ones (byte_at buf 5) 4); lia).
  rewrite E.
  pose proof (Z.mod_pos_bound (byte_at buf 5) 16 ltac:(lia)). lia.
Qed.

Lemma powf_10_finite (e : Z) :
  0 <= e <= 15 -> f32_is_finite (powf_10 e) = true.
Proof.
  intros H.
  assert (e = 0 \/ e = 1 \/ e = 2 \/ e = 3 \/ e = 4 \/ e = 5 \/ e = 6
          \/ e = 7 \/ e = 8 \/ e = 9 \/ e = 10 \/ e = 11 \/ e = 12
          \/ e = 13 \/ e = 14 \/ e = 15) as C by lia.
  repeat (destruct C as [-> | C]; [ reflexivity | ]).
  subst e. reflexivity.
Qed.

Lemma f32_div_not_nan (x y : float32) :
  f32_is_nan x = false -> f32_is_finite y = true ->
  f32_is_nan (f32_div x y) = false.
Proof.
  destruct y as [ sy | sy | | sy my ey ]; try discriminate.
  destruct x as [ sx | sx | | sx mx ex ]; try discriminate;
    intros _ _; try reflexivity.
  apply f32_div_finite_not_nan.
Qed.

Lemma pv_quotient_valid (buf : list Z) :
  f32_valid (pv_quotient buf) = true
  /\ f32_is_nan (pv_quotient buf) = false.
Proof.
  unfold pv_quotient. split; [ apply f32_div_valid | ].
  apply f32_div_not_nan.
  - apply f32_of_int_valid.
  - apply powf_10_finite, pv_exponent_range.
Qed.

Lemma pv_overload_valid (buf : list Z) (info : ut8802e_info) :
  f32_valid (pv_overload info (pv_quotient buf)) = true
  /\ f32_is_nan (pv_overload info (pv_quotient buf)) = false.
Proof.
  unfold pv_overload. destruct (is_ol info).
  - split; reflexivity.
  - apply pv_quotient_valid.
Qed.

(** The sign statement negates or keeps the value. *)
Lemma pv_sign_spec (info : ut8802e_info) (v : float32) :
  f32_valid v = true ->
  pv_sign info v = if is_sign info then f32_opp v else v.
Proof.
  intros V. unfold pv_sign. destruct (is_sign info).
  - apply f32_mul_minus_1, V.
  - apply f32_mul_1, V.
Qed.

Lemma f32_opp_valid (x : float32) :
  f32_valid (f32_opp x) = f32_valid x
  /\ f32_is_nan (f32_opp x) = f32_is_nan x.
Proof. destruct x; split; reflexivity. Qed.

Lemma pv_signed_spec (buf : list Z) (info : ut8802e_info) :
  pv_signed buf info
  = match is_ol info, is_sign info with
    | true, true => S754_infinity true
    | true, false => INFINITY
    | false, true => f32_opp (pv_quotient buf)
    | false, false => pv_quotient buf
    end.
Proof.
  unfold pv_signed.
  rewrite pv_sign_spec by apply pv_overload_valid.
  unfold pv_overload. destruct (is_ol info), (is_sign info); reflexivity.
Qed.

Lemma pv_signed_valid (buf : list Z) (info : ut8802e_info) :
  f32_valid (pv_signed buf info) = true
  /\ f32_is_nan (pv_signed buf info) = false.
Proof.
  rewrite pv_signed_spec.
  destruct (is_ol info), (is_sign info); try (split; reflexivity).
  - destruct (f32_opp_valid (pv_quotient buf)) as [-> ->].
    apply pv_quotient_valid.
  - apply pv_quotient_valid.
Qed.

(** *** The scaling statements *)

Lemma f32_of_int_1000 : f32_of_int 1000 = S754_finite false 16384000 (-14).
Proof. reflexivity. Qed.

Lemma is_frequency_parse_flags (buf : list Z) :
  is_frequency (parse_flags buf info_zero)
  = (byte_at buf 1 =? 0x2b) || (byte_at buf 1 =? 0x2c).
Proof.
  unfold parse_flags. cbn [is_frequency].
  destruct (byte_at buf 1) as [ | p | p ];
    [ | do 7 (try destruct p as [ p | p | ]) | ]; reflexivity.
Qed.

Lemma is_capacitance_parse_flags (buf : list Z) :
  is_capacitance (parse_flags buf info_zero)
  = (byte_at buf 1 =? 0x27) || (byte_at buf 1 =? 0x28).
Proof.
  unfold parse_flags. cbn [is_capacitance].
  destruct (byte_at buf 1) as [ | p | p ];
    [ | do 7 (try destruct p as [ p | p | ]) | ]; reflexivity.
Qed.

Lemma pv_frequency_spec (buf : list Z) (v : float32) :
  pv_frequency buf (parse_flags buf info_zero) v
  = if byte_at buf 1 =? 0x2c then f32_mul v (f32_of_int 1000) else v.
Proof.
  unfold pv_frequency. rewrite is_frequency_parse_flags.
  destruct (byte_at buf 1 =? 0x2c) eqn:E.
  - rewrite orb_true_r. reflexivity.
  - rewrite andb_false_r. reflexivity.
Qed.

Lemma capacitance_switch (b1 : Z) (v : float32) :
  match b1 with
  | 0x27 => f32_div v (f32_of_int 1000)
  | 0x28 => f32_div v (f32_of_int 1)
  | _ => v
  end
  = if b1 =? 0x27 then f32_div v (f32_of_int 1000)
    else if b1 =? 0x28 then f32_div v (f32_of_int 1) else v.
Proof.
  destruct b1 as [ | p | p ];
    [ | do 7 (try destruct p as [ p | p | ]) | ]; reflexivity.
Qed.

Lemma pv_capacitance_spec (buf : list Z) (v : float32) :
  f32_valid v = true ->
  pv_capacitance buf (parse_flags buf info_zero) v
  = if byte_at buf 1 =? 0x27 then f32_div v (f32_of_int 1000) else v.
Proof.
  intros V. unfold pv_capacitance.
  rewrite is_capacitance_parse_flags, capacitance_switch, (f32_div_1 v V).
  destruct (byte_at buf 1 =? 0x27), (byte_at buf 1 =? 0x28); reflexivity.
Qed.

Lemma f32_mul_valid_finite (x : float32) (s : bool) (m : positive) (e : Z) :
  f32_valid x = true -> bounded f32_prec f32_emax m e = true ->
  f32_valid (f32_mul x (S754_finite s m e)) = true
  /\ (f32_is_nan x = false ->
      f32_is_nan (f32_mul x (S754_finite s m e)) = false).
Proof.
  intros V B. destruct x as [ sx | sx | | sx mx ex ];
    try (split; reflexivity); [ split; [ reflexivity | discriminate ] | ].
  unfold f32_mul, SFmul.
  assert (R : f32_valid (binary_round_aux f32_prec f32_emax (xorb sx s)
                           (Z.pos (mx * m)) (ex + e) loc_Exact) = true
              /\ f32_is_nan (binary_round_aux f32_prec f32_emax (xorb sx s)
                               (Z.pos (mx * m)) (ex + e) loc_Exact) = false).
  { apply binary_round_aux_valid; [ lia | ].
    destruct (bounded_canonical mx ex V) as [Cx _].
    destruct (bounded_canonical m e B) as [Cy _].
    rewrite fexp32_eq in *.
    assert (D : Zdigits2 (Z.pos mx) + Zdigits2 (Z.pos m) - 1
                <= Zdigits2 (Z.pos (mx * m))).
    { rewrite !Zdigits2_log2 by lia. rewrite Pos2Z.inj_mul.
      pose proof (Z.log2_mul_below (Z.pos mx) (Z.pos m) ltac:(lia) ltac:(lia)).
      lia. }
    pose proof (Zdigits2_pos (Z.pos mx) ltac:(lia)).
    pose proof (Zdigits2_pos (Z.pos m) ltac:(lia)).
    lia. }
  split; [ apply R | intros _; apply R ].
Qed.

(** [parse_value] on the flags of its own window, statement by
    statement. *)
Lemma parse_value_spec (buf : list Z) :
  let info := parse_flags buf info_zero in
  let v := pv_signed buf info in
  parse_value buf info
  = (SR_OK,
     (if byte_at buf 1 =? 0x2c then f32_mul v (f32_of_int 1000)
      else if byte_at buf 1 =? 0x27 then f32_div v (f32_of_int 1000)
      else v),
     pv_exponent buf).
Proof.
  intros info v. unfold parse_value. fold (pv_signed buf info). fold v.
  unfold info at 1 2. rewrite pv_frequency_spec.
  destruct (byte_at buf 1 =? 0x2c) eqn:E.
  - apply Z.eqb_eq in E. rewrite pv_capacitance_spec.
    + rewrite E. reflexivity.
    + rewrite f32_of_int_1000. apply f32_mul_valid_finite.
      * apply pv_signed_valid.
      * reflexivity.
  - rewrite pv_capacitance_spec by apply pv_signed_valid. reflexivity.
Qed.

(** ** The value decoder *)

Lemma bit_set_testbit (x k : Z) : 0 <= k -> bit_set x k = Z.testbit x k.
Proof.
  intros Hk. unfold bit_set. rewrite Z.shiftl_1_l.
  destruct (Z.testbit x k) eqn:T.
  - apply negb_true_iff, Z.eqb_neq. intros E.
    assert (B : Z.testbit (Z.land x (2 ^ k)) k = true).
    { rewrite Z.land_spec, T, Z.pow2_bits_true by lia. reflexivity. }
    rewrite E, Z.bits_0 in B. discriminate B.
  - apply negb_false_iff, Z.eqb_eq, Z.bits_inj'. intros n Hn.
    rewrite Z.land_spec, Z.bits_0, Z.pow2_bits_eqb by lia.
    destruct (Z.eqb_spec k n) as [<- | _].
    + rewrite T. reflexivity.
    + apply andb_false_r.
Qed.

(** C5.  After digits, exponent, overload and sign, the scaling depends
    on the exact mode byte: [0x2c] multiplies the value by 1000, [0x27]
    divides it by 1000, and every other mode byte, [0x2b] and [0x28]
    among them, leaves it as it is.  Mode [0x2c] with the digits 500 and
    the exponent 1 gives 50, and then 50000. *)
Theorem scaling_by_exact_mode_byte (buf : list Z) :
  let info := parse_flags buf info_zero in
  let v := pv_signed buf info in
  let example := [0xAC; 0x2c; 0x00; 0x05; 0x00; 0x31; 0x00; 0x00] in
  parse_value buf info
  = (SR_OK,
     (if byte_at buf 1 =? 0x2c then f32_mul v (f32_of_int 1000)
      else if byte_at buf 1 =? 0x27 then f32_div v (f32_of_int 1000)
      else v),
     pv_exponent buf)
  /\ (pv_intval example = 500 /\ pv_exponent example = 1
      /\ pv_signed example (parse_flags example info_zero) = f32_of_int 50
      /\ parse_value example (parse_flags example info_zero)
         = (SR_OK, f32_of_int 50000, 1)).
Proof.
  split; [ apply parse_value_spec | ].
  repeat split; vm_compute; reflexivity.
Qed.

(** C8.  The overload bit, bit 6 of byte 6, makes the value [INFINITY]
    before the sign is applied; with the sign bit, bit 7, the value that
    [parse_value] returns is then minus infinity, whatever the mode; and
    the sign bit without the overload bit gives the opposite of the
    quotient. *)
Theorem overload_then_sign (buf : list Z) :
  let info := parse_flags buf info_zero in
  let overload := Z.testbit (byte_at buf 6) 6 in
  let sign := Z.testbit (byte_at buf 6) 7 in
  (overload = true -> pv_overload info (pv_quotient buf) = INFINITY)
  /\ (overload = true -> sign = true ->
      parse_value buf info = (SR_OK, S754_infinity true, pv_exponent buf))
  /\ (overload = false -> sign = true ->
      pv_signed buf info = f32_opp (pv_quotient buf))
  /\ pv_signed buf info
     = (if sign then f32_opp else fun x => x)
         (if overload then INFINITY else pv_quotient buf).
Proof.
  intros info overload sign.
  assert (O : is_ol info = overload) by (apply bit_set_testbit; lia).
  assert (S : is_sign info = sign) by (apply bit_set_testbit; lia).
  assert (V : pv_signed buf info
              = (if sign then f32_opp else fun x => x)
                  (if overload then INFINITY else pv_quotient buf)).
  { rewrite pv_signed_spec, O, S. destruct overload, sign; reflexivity. }
  split; [ | split; [ | split; [ | exact V ] ] ].
  - intros H. unfold pv_overload. rewrite O, H. reflexivity.
  - intros H1 H2. unfold info. rewrite parse_value_spec.
    fold info. rewrite V, H1, H2. cbn [f32_opp SFopp INFINITY negb].
    rewrite f32_of_int_1000.
    destruct (byte_at buf 1 =? 0x2c), (byte_at buf 1 =? 0x27); reflexivity.
  - intros H1 H2. rewrite V, H1, H2. reflexivity.
Qed.

Lemma overload_then_sign_witness :
  let w := [0xAC; 0x27; 0x34; 0x12; 0x00; 0x32; 0xC0; 0x00] in
  Z.testbit (byte_at w 6) 6 = true /\ Z.testbit (byte_at w 6) 7 = true
  /\ parse_value w (parse_flags w info_zero)
     = (SR_OK, S754_infinity true, pv_exponent w).
Proof.
  intros w.
  assert (O : Z.testbit (byte_at w 6) 6 = true) by reflexivity.
  assert (S : Z.testbit (byte_at w 6) 7 = true) by reflexivity.
  split; [ exact O | split; [ exact S | ] ].
  exact (proj1 (proj2 (overload_then_sign w)) O S).
Defined.

(** ** The measurement mapper *)

Lemma SFcompare_antisym (x y : float32) :
  SFcompare y x = option_map CompOpp (SFcompare x y).
Proof.
  destruct x as [ sx | sx | | sx mx ex ], y as [ sy | sy | | sy my ey ];
    try reflexivity;
    try (destruct sx; reflexivity); try (destruct sy; reflexivity);
    try (destruct sx, sy; reflexivity).
  assert (A : Pos.compare_cont Eq my mx
              = CompOpp (Pos.compare_cont Eq mx my))
    by (rewrite (Pos.compare_cont_antisym mx my Eq); reflexivity).
  destruct sx, sy; cbn [SFcompare option_map]; try reflexivity;
    rewrite (Z.compare_antisym ey ex), A;
    destruct (ey ?= ex), (Pos.compare_cont Eq mx my); reflexivity.
Qed.

Lemma SFcompare_defined (x y : float32) :
  f32_is_nan x = false -> f32_is_nan y = false ->
  exists c, SFcompare x y = Some c.
Proof.
  destruct x as [ sx | sx | | sx mx ex ], y as [ sy | sy | | sy my ey ];
    try discriminate; intros _ _; eexists; reflexivity.
Qed.

(** Without NaN, [x <= y] is the negation of [y < x]. *)
Lemma f32_leb_ltb (x y : float32) :
  f32_is_nan x = false -> f32_is_nan y = false ->
  f32_leb x y = negb (f32_ltb y x).
Proof.
  intros Nx Ny. unfold f32_leb, f32_ltb, SFleb, SFltb.
  rewrite (SFcompare_antisym x y).
  destruct (SFcompare_defined x y Nx Ny) as [c ->].
  destruct c; reflexivity.
Qed.

(** The continuity test is the test of the closed interval from 0 to 60. *)
Lemma continuity_value_spec (v : float32) :
  f32_is_nan v = false ->
  continuity_value v
  = if f32_leb f32_0 v && f32_leb v f32_60 then f32_1 else f32_0.
Proof.
  intros N. unfold continuity_value.
  rewrite (f32_leb_ltb f32_0 v) by (exact N || reflexivity).
  rewrite (f32_leb_ltb v f32_60) by (exact N || reflexivity).
  destruct (f32_ltb v f32_0), (f32_ltb f32_60 v); reflexivity.
Qed.

Lemma parse_flags_continuity (buf : list Z) :
  byte_at buf 1 = 0x24 ->
  parse_flags buf info_zero
  = mk_info false false false false false false false false true false false
      false false false false
      (bit_set (byte_at buf 6) 0) (bit_set (byte_at buf 6) 1)
      (bit_set (byte_at buf 6) 3) (bit_set (byte_at buf 6) 4)
      (bit_set (byte_at buf 6) 6) (bit_set (byte_at buf 6) 7).
Proof. intros H. unfold parse_flags. rewrite H. reflexivity. Qed.

(** C6, as the code has it.  A continuity packet (magic marker, mode byte
    [0x24]) is parsed with success into the quantity continuity and the
    boolean unit, and its value is 1.0 when the decoded value lies in the
    closed interval from 0 to 60, and 0.0 otherwise. *)
Theorem continuity_is_closed_interval (buf : list Z) :
  byte_at buf 0 = 0xAC ->
  byte_at buf 1 = 0x24 ->
  let info := parse_flags buf info_zero in
  let v := pv_signed buf info in
  exists a : sr_datafeed_analog,
    sr_ut8802e_parse buf sr_analog_init
    = (SR_OK,
       Some (if f32_leb f32_0 v && f32_leb v f32_60 then f32_1 else f32_0, a),
       info)
    /\ mq a = Some SR_MQ_CONTINUITY
    /\ unit a = Some SR_UNIT_BOOLEAN.
Proof.
  intros H0 H1 info v.
  assert (PV : parse_value buf info = (SR_OK, v, pv_exponent buf)).
  { unfold info. rewrite parse_value_spec, H1. reflexivity. }
  unfold sr_ut8802e_parse.
  rewrite packet_valid_magic, H0. cbn [Z.eqb Pos.eqb negb].
  fold info. rewrite PV.
  rewrite <- (continuity_value_spec v) by apply pv_signed_valid.
  unfold info at 1. rewrite (parse_flags_continuity buf H1).
  unfold handle_flags.
  cbn [is_voltage is_current is_resistance is_capacitance is_frequency
       is_temperature is_celsius is_fahrenheit is_continuity is_diode
       is_duty_cycle is_power is_loop_current is_ac is_dc is_min is_max
       is_rel is_hold andb when].
  eexists. split; [ reflexivity | ].
  destruct (bit_set (byte_at buf 6) 0), (bit_set (byte_at buf 6) 1),
    (bit_set (byte_at buf 6) 3), (bit_set (byte_at buf 6) 4);
    split; reflexivity.
Qed.

Lemma continuity_is_closed_interval_witness :
  let w := [0xAC; 0x24; 0x75; 0x00; 0x00; 0x30; 0x00; 0x00] in
  exists a : sr_datafeed_analog,
    sr_ut8802e_parse w sr_analog_init
    = (SR_OK, Some (f32_0, a), parse_flags w info_zero)
    /\ mq a = Some SR_MQ_CONTINUITY
    /\ unit a = Some SR_UNIT_BOOLEAN.
Proof.
  intros w.
  exact (continuity_is_closed_interval w eq_refl eq_refl).
Defined.

(** C6 as stated fails at the value 0: it is not greater than 0, and the
    mapper makes it 1.0. *)
Lemma continuity_of_zero_is_one :
  let w := [0xAC; 0x24; 0x00; 0x00; 0x00; 0x30; 0x00; 0x00] in
  let v := pv_signed w (parse_flags w info_zero) in
  v = f32_0
  /\ f32_ltb f32_0 v = false
  /\ exists a info,
       sr_ut8802e_parse w sr_analog_init = (SR_OK, Some (f32_1, a), info).
Proof.
  cbv zeta. split; [ reflexivity | split; [ reflexivity | ] ].
  do 2 eexists. vm_compute. reflexivity.
Qed.

(** ** Digits and exponent *)

(** The conversion of an [int] below [2 ^ 24] to [float] is exact. *)
Lemma f32_of_int_exact (n : Z) :
  0 <= n < 2 ^ 24 -> f32_to_Z (f32_of_int n) = Some n.
Proof.
  intros [H0 H1]. destruct n as [ | m | m ]; try lia; [ reflexivity | ].
  unfold f32_of_int, binary_normalize, binary_round, shl_align.
  change (Z.pos (digits2_pos m)) with (Zdigits2 (Z.pos m)).
  fold (fexp32 (Zdigits2 (Z.pos m) + 0)).
  set (d := Zdigits2 (Z.pos m)).
  assert (D : 0 < d <= 24).
  { split; [ apply Zdigits2_pos; lia | ].
    unfold d. rewrite Zdigits2_log2 by lia.
    pose proof (Z.log2_lt_pow2 (Z.pos m) 24 ltac:(lia)). lia. }
  assert (F : fexp32 (d + 0) = d - 24) by (rewrite fexp32_eq; lia).
  rewrite F.
  destruct (d - 24 - 0) as [ | p | p ] eqn:E; try lia.
  - (* 24 digits *)
    assert (B : bounded f32_prec f32_emax m 0 = true).
    { unfold bounded, canonical_mantissa.
      change (Z.pos (digits2_pos m)) with d. fold (fexp32 (d + 0)).
      rewrite F. replace (d - 24) with 0 by lia. reflexivity. }
    pose proof (binary_round_aux_exact false m 0 0 B ltac:(lia)) as R.
    rewrite Z.pow_0_r, Z.mul_1_r in R. cbn [Z.sub Z.opp Z.add] in R.
    rewrite R. cbn [f32_to_Z Z.leb Z.compare]. f_equal. lia.
  - (* fewer digits: the mantissa is shifted to the left *)
    assert (B : bounded f32_prec f32_emax (Pos.iter xO m p) (d - 24) = true).
    { unfold bounded, canonical_mantissa.
      change (Z.pos (digits2_pos (Pos.iter xO m p)))
        with (Zdigits2 (Z.pos (Pos.iter xO m p))).
      rewrite pos_iter_xO, Zdigits2_mul_pow2 by lia. fold d.
      fold (fexp32 (d + Z.pos p + (d - 24))).
      rewrite fexp32_eq.
      apply andb_true_intro. split; [ apply Z.eqb_eq | apply Z.leb_le ].
      + lia.
      + change (f32_emax - f32_prec) with 104. lia. }
    pose proof (binary_round_aux_exact false (Pos.iter xO m p) (d - 24) 0 B
                  ltac:(lia)) as R.
    rewrite Z.pow_0_r, Z.mul_1_r, Z.sub_0_r in R. rewrite R.
    unfold f32_to_Z.
    replace (0 <=? d - 24) with false by (symmetry; apply Z.leb_gt; lia).
    replace (- (d - 24)) with (Z.pos p) by lia.
    rewrite pos_iter_xO, Z.mod_mul, Z.div_mul
      by (apply Z.pow_nonzero; lia).
    reflexivity.
Qed.

(** On a byte the result of [bcd_to_dec] fits its return type: it is the
    BCD value of the document, at most 165. *)
Lemma bcd_to_dec_bcd (b : Z) :
  is_byte b -> bcd_to_dec b = bcd b /\ 0 <= bcd b <= 165.
Proof.
  unfold is_byte, bcd_to_dec, bcd. intros H.
  assert (S : Z.shiftr b 4 = b / 16) by (apply (Z.shiftr_div_pow2 b 4); lia).
  assert (L : Z.land b 0xf = b mod 16) by (apply (Z.land_ones b 4); lia).
  rewrite S, L.
  pose proof (Z.mod_pos_bound b 16 ltac:(lia)) as M.
  assert (Q : 0 <= b / 16 <= 15).
  { split; [ apply Z.div_pos; lia | ].
    apply Z.lt_succ_r. apply Z.div_lt_upper_bound; lia. }
  split; [ | lia ].
  rewrite Z.mod_small by lia. lia.
Qed.




(** ** Scenarios of the design document *)

(** Mode byte [0x03] (DC 2 V), digits 1234, exponent 2, no flag: a voltage
    in volts with the flag DC, and the binary32 number nearest to 12.34. *)
Example scenario_dc_voltage :
  sr_ut8802e_parse [0xAC; 0x03; 0x34; 0x12; 0x00; 0x32; 0x00; 0x00]
    sr_analog_init
  = (SR_OK,
     Some (S754_finite false 12939428 (-20),
           mk_analog (Some SR_MQ_VOLTAGE) (Some SR_UNIT_VOLT) flag_DC 2 2),
     set_is_voltage true (set_is_dc true info_zero)).
Proof. vm_compute. reflexivity. Qed.

(** A packet that arrives in two chunks, 5 bytes and then 3 bytes with 2
    more behind them: nothing is sent after the first call, one packet
    after the second, and the 2 bytes stay in the buffer. *)
Example scenario_chunk_splitting :
  let devc0 := mk_devc false (repeat 0 32) 0 0 in
  exists devc1 devc2 m,
    get_and_handle_data devc0 SR_OK 0 [0x05; 0xAC; 0x03; 0x34; 0x12; 0x00]
    = Some (SR_OK, devc1, [])
    /\ buflen devc1 = 5
    /\ get_and_handle_data devc1 SR_OK 0 [0x05; 0x32; 0x00; 0x00; 0xAC; 0x0b]
       = Some (SR_OK, devc2, [m])
    /\ decode_packet [0xAC; 0x03; 0x34; 0x12; 0x00; 0x32; 0x00; 0x00] = Some m
    /\ buflen devc2 = 2
    /\ firstn 2 (protocol_buf devc2) = [0xAC; 0x0b].
Proof.
  cbv zeta. do 3 eexists.
  split; [ vm_compute; reflexivity | ].
  split; [ reflexivity | ].
  split; [ vm_compute; reflexivity | ].
  repeat split.
Qed.

(** A chunk without data bytes changes nothing. *)
Example scenario_empty_chunk (devc : dev_context) (rest : list Z) :
  first_run devc = false ->
  get_and_handle_data devc SR_OK 0 (0x00 :: rest) = Some (SR_OK, devc, []).
Proof.
  intros F. unfold get_and_handle_data. rewrite F. cbn [andb].
  destruct devc as [fr pbuf len off]. cbn in F. subst fr. reflexivity.
Qed.

(** The mapper comes after the value decoder: on a continuity packet with
    overload and sign, [parse_value] gives minus infinity and the
    measurement that leaves the parser is 0.0. *)
Example scenario_continuity_overload :
  let w := [0xAC; 0x24; 0x00; 0x00; 0x00; 0x30; 0xC0; 0x00] in
  parse_value w (parse_flags w info_zero) = (SR_OK, S754_infinity true, 0)
  /\ exists a info,
       sr_ut8802e_parse w sr_analog_init = (SR_OK, Some (f32_0, a), info).
Proof.
  cbv zeta. split; [ vm_compute; reflexivity | ].
  do 2 eexists. vm_compute. reflexivity.
Qed.

(** * Further properties of the code

    Properties of the parser and of the chunk handler that the source
    shows, beyond those of the design document. *)

(** ** The drain loop as a function of the pending bytes *)

Lemma byte_at_at_offset (p : list Z) (o : Z) (i : nat) :
  byte_at (at_offset p o) i = nth (Z.to_nat o + i) p 0.
Proof. unfold byte_at, at_offset. apply nth_skipn. Qed.

Lemma same_bytes_window (p1 : list Z) (o1 : Z) (p2 : list Z) (o2 : Z)
    (k : nat) :
  same_bytes p1 o1 p2 o2 k -> (7 <= k)%nat ->
  same_window (at_offset p1 o1) (at_offset p2 o2).
Proof.
  intros S K i Hi. rewrite !byte_at_at_offset. apply S. lia.
Qed.

Lemma same_bytes_shift (p1 : list Z) (o1 : Z) (p2 : list Z) (o2 : Z)
    (k : nat) (d : Z) :
  same_bytes p1 o1 p2 o2 k -> 0 <= o1 -> 0 <= o2 -> 0 <= d ->
  same_bytes p1 (o1 + d) p2 (o2 + d) (k - Z.to_nat d).
Proof.
  intros S H1 H2 Hd j Hj.
  replace (Z.to_nat (o1 + d) + j)%nat with (Z.to_nat o1 + (Z.to_nat d + j))%nat
    by lia.
  replace (Z.to_nat (o2 + d) + j)%nat with (Z.to_nat o2 + (Z.to_nat d + j))%nat
    by lia.
  apply S. lia.
Qed.

(** The loop depends on the pending bytes only: on two buffers that hold
    the same unconsumed bytes it advances by the same number of bytes and
    sends the same packets. *)
Lemma drain_relocate (n : nat) :
  forall (p1 : list Z) (l1 o1 : Z) (p2 : list Z) (l2 o2 : Z)
         (s1 s2 : list sr_datafeed_packet),
    (Z.to_nat (l1 - o1) <= n)%nat ->
    0 <= o1 -> 0 <= o2 -> l1 - o1 = l2 - o2 ->
    same_bytes p1 o1 p2 o2 (Z.to_nat (l1 - o1)) ->
    fst (drain p1 l1 o1 s1) - o1 = fst (drain p2 l2 o2 s2) - o2
    /\ exists new,
         snd (drain p1 l1 o1 s1) = s1 ++ new
         /\ snd (drain p2 l2 o2 s2) = s2 ++ new.
Proof.
  induction n as [ | n IH ]; intros p1 l1 o1 p2 l2 o2 s1 s2 M H1 H2 L S.
  - rewrite (drain_body p1), (drain_body p2).
    replace (UT8802E_PACKET_SIZE <=? l1 - o1) with false
      by (symmetry; apply Z.leb_gt; unfold UT8802E_PACKET_SIZE; lia).
    replace (UT8802E_PACKET_SIZE <=? l2 - o2) with false
      by (symmetry; apply Z.leb_gt; unfold UT8802E_PACKET_SIZE; lia).
    cbn [fst snd]. split; [ lia | ].
    exists []. rewrite !app_nil_r. split; reflexivity.
  - rewrite (drain_body p1), (drain_body p2). rewrite <- L.
    destruct (UT8802E_PACKET_SIZE <=? l1 - o1) eqn:E.
    + apply Z.leb_le in E. unfold UT8802E_PACKET_SIZE in *.
      assert (W : same_window (at_offset p1 o1) (at_offset p2 o2))
        by (apply (same_bytes_window _ _ _ _ _ S); lia).
      rewrite (packet_valid_ext (at_offset p1 o1) (at_offset p2 o2))
        by (apply W; lia).
      unfold decode_packet. rewrite (parse_ext _ _ sr_analog_init W).
      fold (decode_packet (at_offset p2 o2)).
      destruct (sr_ut8802e_packet_valid (at_offset p2 o2)).
      * destruct (IH p1 l1 (o1 + 8) p2 l2 (o2 + 8)
                    (s1 ++ sent_by (decode_packet (at_offset p2 o2)))
                    (s2 ++ sent_by (decode_packet (at_offset p2 o2))))
          as (F & new & N1 & N2); try lia.
        { replace (Z.to_nat (l1 - (o1 + 8)))
            with (Z.to_nat (l1 - o1) - Z.to_nat 8)%nat by lia.
          apply same_bytes_shift; try lia. exact S. }
        split; [ lia | ].
        exists (sent_by (decode_packet (at_offset p2 o2)) ++ new).
        rewrite N1, N2, !app_assoc. split; reflexivity.
      * destruct (IH p1 l1 (o1 + 1) p2 l2 (o2 + 1) s1 s2)
          as (F & new & N1 & N2); try lia.
        { replace (Z.to_nat (l1 - (o1 + 1)))
            with (Z.to_nat (l1 - o1) - Z.to_nat 1)%nat by lia.
          apply same_bytes_shift; try lia. exact S. }
        split; [ lia | ]. exists new. split; assumption.
    + cbn [fst snd]. split; [ lia | ].
      exists []. rewrite !app_nil_r. split; reflexivity.
Qed.

(** The packets already sent are kept in front of the new ones. *)
Lemma drain_sent (p : list Z) (l o : Z) (s : list sr_datafeed_packet) :
  0 <= o ->
  drain p l o s = (fst (drain p l o []), s ++ snd (drain p l o [])).
Proof.
  intros H.
  destruct (drain_relocate (Z.to_nat (l - o)) p l o p l o s [])
    as (F & new & N1 & N2); try lia.
  { intros j _. reflexivity. }
  cbn [app] in N2. rewrite N2, <- N1.
  assert (fst (drain p l o s) = fst (drain p l o [])) as <- by lia.
  destruct (drain p l o s). reflexivity.
Qed.

(** With more bytes in the buffer, the loop first does what it does on
    the bytes that were there, and goes on from where it stopped. *)
Lemma drain_more (p : list Z) (l1 l2 : Z) :
  l1 <= l2 ->
  forall (o : Z) (s : list sr_datafeed_packet),
    drain p l2 o s
    = drain p l2 (fst (drain p l1 o s)) (snd (drain p l1 o s)).
Proof.
  intros L o s. funelim (drain p l1 o s).
  - cbn [fst snd]. reflexivity.
  - rewrite (drain_body pbuf l2 off sent).
    pose proof (proj1 (Z.leb_le _ _) e).
    replace (UT8802E_PACKET_SIZE <=? l2 - off) with true
      by (symmetry; apply Z.leb_le; lia).
    rewrite e0. apply H. exact L.
  - rewrite (drain_body pbuf l2 off sent).
    pose proof (proj1 (Z.leb_le _ _) e).
    replace (UT8802E_PACKET_SIZE <=? l2 - off) with true
      by (symmetry; apply Z.leb_le; lia).
    rewrite e0. apply H. exact L.
Qed.

(** ** What the copy loop writes *)

Lemma skipn_nth_cons (l : list Z) (n : nat) :
  (n < length l)%nat -> skipn n l = nth n l 0 :: skipn (S n) l.
Proof.
  revert n. induction l as [ | x l IH ]; intros n H; cbn [length] in H.
  - lia.
  - destruct n as [ | n ]; [ reflexivity | ].
    cbn [skipn nth]. rewrite IH by lia. reflexivity.
Qed.

Lemma load_some (a : list Z) (i v : Z) :
  load a i = Some v ->
  0 <= i < Z.of_nat (length a) /\ v = nth (Z.to_nat i) a 0.
Proof.
  intros H. split.
  - apply load_some_iff. eexists; exact H.
  - unfold load in H.
    destruct ((0 <=? i) && (i <? Z.of_nat (length a))); [ | discriminate ].
    injection H as <-. reflexivity.
Qed.

Lemma store_some (a : list Z) (i v : Z) (a' : list Z) :
  store a i v = Some a' ->
  0 <= i < Z.of_nat (length a)
  /\ a' = firstn (Z.to_nat i) a ++ v :: skipn (Z.to_nat (i + 1)) a.
Proof.
  intros H. split.
  - apply (store_some_iff a i v). eexists; exact H.
  - unfold store in H.
    destruct ((0 <=? i) && (i <? Z.of_nat (length a))); [ | discriminate ].
    injection H as <-. reflexivity.
Qed.

(** The loop copies [todo] bytes of the chunk, from index [1 + i] on,
    behind the first [len] bytes of the buffer, and touches nothing
    else. *)
Lemma append_loop_content (todo : nat) :
  forall (i : Z) (buf pbuf : list Z) (len : Z) (pbuf' : list Z) (len' : Z),
    0 <= i ->
    append_loop todo i buf pbuf len = Some (pbuf', len') ->
    pbuf' = firstn (Z.to_nat len) pbuf
            ++ firstn todo (skipn (Z.to_nat (1 + i)) buf)
            ++ skipn (Z.to_nat len + todo) pbuf.
Proof.
  induction todo as [ | k IH ]; intros i buf pbuf len pbuf' len' Hi H.
  - cbn in H. injection H as <- _. cbn [firstn app].
    rewrite Nat.add_0_r, firstn_skipn. reflexivity.
  - cbn [append_loop] in H.
    destruct (load buf (1 + i)) as [v | ] eqn:L; [ | discriminate ].
    destruct (store pbuf len v) as [q | ] eqn:S; [ | discriminate ].
    apply load_some in L. destruct L as [LB ->].
    apply store_some in S. destruct S as [SB ->].
    apply IH in H; [ | lia ]. rewrite H. clear H IH.
    set (v := nth (Z.to_nat (1 + i)) buf 0).
    set (a := firstn (Z.to_nat len) pbuf).
    assert (LA : length a = Z.to_nat len)
      by (unfold a; rewrite length_firstn; lia).
    replace (Z.to_nat (len + 1)) with (length a + 1)%nat by lia.
    rewrite firstn_app_2. cbn [firstn].
    rewrite skipn_app.
    replace (skipn (length a + 1 + k) a) with (@nil Z)
      by (symmetry; apply skipn_all2; lia).
    replace (length a + 1 + k - length a)%nat with (S k) by lia.
    cbn [skipn app]. rewrite skipn_skipn.
    rewrite (skipn_nth_cons buf (Z.to_nat (1 + i))) by lia.
    fold v. cbn [firstn].
    replace (Z.to_nat (1 + (i + 1))) with (S (Z.to_nat (1 + i))) by lia.
    rewrite <- app_assoc. cbn [app].
    replace (k + (length a + 1))%nat with (Z.to_nat len + S k)%nat by lia.
    reflexivity.
Qed.

Lemma chunk_of_length_nat (received : list Z) :
  length (chunk_of received) = 8%nat.
Proof. pose proof (chunk_of_length received). unfold CHUNK_SIZE in *. lia. Qed.

Lemma data_of_length (received : list Z) :
  0 <= declared_length received < CHUNK_SIZE ->
  Z.of_nat (length (data_of received)) = declared_length received.
Proof.
  intros H. unfold data_of, CHUNK_SIZE in *.
  rewrite length_firstn, length_skipn, chunk_of_length_nat. lia.
Qed.

(** After the copy of a chunk the buffer holds its old bytes and, behind
    them, the data bytes of the chunk. *)
Lemma append_chunk_content (received pbuf : list Z) (len : Z)
    (pbuf' : list Z) (len' : Z) :
  0 <= len ->
  append_chunk (chunk_of received) pbuf len = Some (pbuf', len') ->
  0 < declared_length received ->
  len' = len + declared_length received
  /\ length pbuf' = length pbuf
  /\ declared_length received < CHUNK_SIZE
  /\ len' <= Z.of_nat (length pbuf)
  /\ firstn (Z.to_nat len') pbuf'
     = firstn (Z.to_nat len) pbuf ++ data_of received.
Proof.
  intros HL H D.
  destruct (append_chunk_length _ _ _ _ _ H) as [E1 E2].
  assert (F : exists r, append_chunk (chunk_of received) pbuf len = Some r)
    by (eexists; exact H).
  apply append_chunk_defined_iff in F.
  destruct F as [F | (F1 & F2 & F3)]; [ lia | ].
  split; [ lia | ]. split; [ exact E2 | ]. split; [ exact F1 | ].
  split; [ lia | ].
  unfold append_chunk in H. fold (declared_length received) in H.
  apply append_loop_content in H; [ | lia ].
  change (Z.to_nat (1 + 0)) with 1%nat in H. fold (data_of received) in H.
  rewrite H.
  set (a := firstn (Z.to_nat len) pbuf).
  assert (LA : length a = Z.to_nat len)
    by (unfold a; rewrite length_firstn; lia).
  pose proof (data_of_length received ltac:(lia)) as LD.
  rewrite app_assoc.
  replace (Z.to_nat len') with (length (a ++ data_of received))
    by (rewrite length_app; lia).
  apply firstn_exact.
Qed.

(** ** The handler as a function of the byte stream *)

Lemma drain_short (s : list Z) (sent : list sr_datafeed_packet) (l o : Z) :
  l - o < UT8802E_PACKET_SIZE -> drain s l o sent = (o, sent).
Proof.
  intros H. rewrite drain_body.
  replace (UT8802E_PACKET_SIZE <=? l - o) with false
    by (symmetry; apply Z.leb_gt; exact H).
  reflexivity.
Qed.

Lemma same_bytes_firstn (p : list Z) (k : nat) :
  same_bytes p 0 (firstn k p) 0 k.
Proof.
  intros j Hj. cbn [Z.to_nat Nat.add]. rewrite nth_firstn.
  destruct (Nat.ltb_spec j k); [ reflexivity | lia ].
Qed.

(** The loop on an array whose first [l] bytes are the stream [s] is the
    loop on [s]. *)
Lemma drain_on_stream (p s : list Z) (l : Z) :
  firstn (Z.to_nat l) p = s -> Z.of_nat (length s) = l ->
  drain p l 0 [] = drain s (Z.of_nat (length s)) 0 [].
Proof.
  intros F L.
  destruct (drain_relocate (Z.to_nat (l - 0)) p l 0 s (Z.of_nat (length s)) 0
              [] []) as (E & new & N1 & N2); try lia.
  { rewrite <- F. rewrite Z.sub_0_r. apply same_bytes_firstn. }
  cbn [app] in N1, N2.
  destruct (drain p l 0 []) as [o1 s1], (drain s _ 0 []) as [o2 s2].
  cbn [fst snd] in *. subst s1 s2. f_equal. lia.
Qed.

(** What compaction leaves in front of the buffer: the bytes from the
    scan offset to the end. *)
Lemma compact_content (p : list Z) (l o : Z) :
  0 <= o <= l -> l <= Z.of_nat (length p) ->
  firstn (Z.to_nat (snd (compact p l o))) (fst (compact p l o))
  = skipn (Z.to_nat o) (firstn (Z.to_nat l) p)
  /\ length (fst (compact p l o)) = length p.
Proof.
  intros O L. unfold compact. cbn [fst snd].
  destruct (o <? l) eqn:E.
  - apply Z.ltb_lt in E. unfold memmove_front, at_offset.
    set (a := firstn (Z.to_nat (l - o)) (skipn (Z.to_nat o) p)).
    assert (LA : length a = Z.to_nat (l - o)).
    { unfold a. rewrite length_firstn, length_skipn. lia. }
    split.
    + rewrite <- LA at 1. rewrite firstn_exact. unfold a.
      rewrite firstn_skipn_comm. f_equal. f_equal. lia.
    + rewrite length_app, LA, length_skipn. lia.
  - apply Z.ltb_ge in E. assert (o = l) as -> by lia.
    rewrite Z.sub_diag. cbn [Z.to_nat firstn]. split; [ | reflexivity ].
    symmetry. apply skipn_all2. rewrite length_firstn. lia.
Qed.

(** One call of the handler on the stream made of the buffered bytes
    followed by the data bytes of the chunk. *)
Lemma handler_on_stream (devc : dev_context) (init_ret : sr_status)
    (xfer_ret : Z) (received : list Z) :
  init_fails devc init_ret = false ->
  0 <= xfer_ret ->
  (first_run devc = true -> buflen devc = 0) ->
  0 <= buflen devc < UT8802E_PACKET_SIZE ->
  0 <= declared_length received < CHUNK_SIZE ->
  buflen devc + declared_length received <= DMM_BUFSIZE devc ->
  let s := valid_bytes devc ++ data_of received in
  let r := drain s (Z.of_nat (length s)) 0 [] in
  exists devc' : dev_context,
    get_and_handle_data devc init_ret xfer_ret received
    = Some (SR_OK, devc', snd r)
    /\ valid_bytes devc' = skipn (Z.to_nat (fst r)) s
    /\ buflen devc' = Z.of_nat (length s) - fst r
    /\ 0 <= buflen devc' < UT8802E_PACKET_SIZE
    /\ first_run devc' = false
    /\ DMM_BUFSIZE devc' = DMM_BUFSIZE devc.
Proof.
  intros I X FR B D C s r.
  set (pbuf0 := if first_run devc then repeat 0 (length (protocol_buf devc))
                else protocol_buf devc).
  assert (L0 : length pbuf0 = length (protocol_buf devc))
    by apply zeroed_length.
  assert (V0 : firstn (Z.to_nat (buflen devc)) pbuf0 = valid_bytes devc).
  { unfold pbuf0, valid_bytes. destruct (first_run devc); [ | reflexivity ].
    rewrite (FR eq_refl). reflexivity. }
  assert (LV : Z.of_nat (length (valid_bytes devc)) = buflen devc).
  { unfold valid_bytes. rewrite length_firstn. unfold DMM_BUFSIZE in C. lia. }
  pose proof (data_of_length received D) as LD.
  assert (LS : Z.of_nat (length s) = buflen devc + declared_length received)
    by (unfold s; rewrite length_app; lia).
  destruct (Z.eq_dec (declared_length received) 0) as [Z0 | NZ].
  - (* no data: an early return *)
    assert (data_of received = []) as DE.
    { apply length_zero_iff_nil. lia. }
    assert (R : r = (0, [])).
    { unfold r. apply drain_short. unfold UT8802E_PACKET_SIZE in *. lia. }
    rewrite R. cbn [fst snd Z.to_nat skipn].
    exists (mk_devc false pbuf0 (buflen devc) (bufoffset devc)).
    split.
    { unfold get_and_handle_data. fold (init_fails devc init_ret).
      fold (declared_length received). fold pbuf0. rewrite I, Z0.
      replace (xfer_ret <? 0) with false
        by (symmetry; apply Z.ltb_ge; exact X).
      reflexivity. }
    unfold valid_bytes at 1, DMM_BUFSIZE. cbn [protocol_buf buflen first_run].
    rewrite V0, L0. unfold s. rewrite DE, app_nil_r.
    repeat split; try lia.
  - rewrite (handler_on_data devc init_ret xfer_ret received I X NZ).
    cbv zeta. fold pbuf0.
    destruct (append_chunk (chunk_of received) pbuf0 (buflen devc))
      as [ [pbuf1 len1] | ] eqn:A.
    2:{ exfalso.
        destruct (proj2 (append_chunk_defined_iff received pbuf0 (buflen devc)))
          as [x Hx].
        - right. rewrite L0. unfold DMM_BUFSIZE in C. lia.
        - rewrite A in Hx. discriminate Hx. }
    destruct (append_chunk_content received pbuf0 (buflen devc) pbuf1 len1
                ltac:(lia) A ltac:(lia)) as (E1 & E2 & _ & E4 & E5).
    rewrite V0 in E5. fold s in E5.
    assert (LS1 : Z.of_nat (length s) = len1) by lia.
    rewrite (drain_on_stream pbuf1 s len1 E5 LS1). fold r.
    pose proof (drain_bounds s (Z.of_nat (length s)) 0 []) as (B1 & B2 & B3).
    fold r in B1, B2, B3. specialize (B3 ltac:(lia)).
    destruct r as [off sent] eqn:R. cbn [fst snd] in *.
    destruct (compact_content pbuf1 len1 off ltac:(lia) ltac:(lia))
      as [CC CL].
    destruct (compact pbuf1 len1 off) as [pbuf2 len2] eqn:K.
    assert (len2 = len1 - off) as ->.
    { unfold compact in K. injection K as _ <-. reflexivity. }
    cbn [fst snd] in CC, CL.
    exists (mk_devc false pbuf2 (len1 - off) off).
    split; [ reflexivity | ].
    unfold valid_bytes at 1, DMM_BUFSIZE. cbn [protocol_buf buflen first_run].
    rewrite CC, E5, CL, E2, L0.
    repeat split; try lia.
Qed.

(** X1.  One call of the handler.  The packets sent and the bytes left in
    the buffer are those of the drain loop run on the stream made of the
    buffered bytes followed by the data bytes of the chunk. *)
Theorem handler_scans_the_stream (devc : dev_context) (init_ret : sr_status)
    (xfer_ret : Z) (received : list Z) :
  init_fails devc init_ret = false ->
  0 <= xfer_ret ->
  (first_run devc = true -> buflen devc = 0) ->
  0 <= buflen devc < UT8802E_PACKET_SIZE ->
  0 <= declared_length received < CHUNK_SIZE ->
  buflen devc + declared_length received <= DMM_BUFSIZE devc ->
  let s := valid_bytes devc ++ data_of received in
  let r := drain s (Z.of_nat (length s)) 0 [] in
  exists devc' : dev_context,
    get_and_handle_data devc init_ret xfer_ret received
    = Some (SR_OK, devc', snd r)
    /\ valid_bytes devc' = skipn (Z.to_nat (fst r)) s
    /\ buflen devc' = Z.of_nat (length s) - fst r
    /\ 0 <= buflen devc' < UT8802E_PACKET_SIZE
    /\ first_run devc' = false
    /\ DMM_BUFSIZE devc' = DMM_BUFSIZE devc.
Proof.
  intros I X FR B D C s r.
  destruct (handler_on_stream devc init_ret xfer_ret received I X FR B D C)
    as (devc' & H & V & L & R & F & S).
  exists devc'. fold s in H, V, L. fold r in H, V, L.
  split; [ exact H | ]. split; [ exact V | ]. split; [ exact L | ].
  split; [ exact R | ]. split; [ exact F | exact S ].
Qed.

Lemma handler_scans_the_stream_witness :
  let devc := mk_devc false
                ([0xAC; 0x2c; 0x00; 0x05; 0x00] ++ repeat 0 27) 5 0 in
  let received := [0x05; 0x31; 0x00; 0x00; 0xAC; 0x03] in
  let s := [0xAC; 0x2c; 0x00; 0x05; 0x00; 0x31; 0x00; 0x00; 0xAC; 0x03] in
  exists devc' : dev_context,
    get_and_handle_data devc SR_OK 0 received
    = Some (SR_OK, devc', snd (drain s 10 0 []))
    /\ valid_bytes devc' = [0xAC; 0x03]
    /\ buflen devc' = 2.
Proof.
  intros devc received s.
  destruct (handler_scans_the_stream devc SR_OK 0 received)
    as (devc' & H & V & L & _).
  - reflexivity.
  - lia.
  - discriminate.
  - change (0 <= 5 < 8). lia.
  - change (0 <= 5 < 8). lia.
  - change (5 + 5 <= 32). lia.
  - exists devc'. split; [ exact H | split; [ exact V | exact L ] ].
Defined.

Lemma skipn_app_le (a b : list Z) (n : nat) :
  (n <= length a)%nat -> skipn n (a ++ b) = skipn n a ++ b.
Proof.
  intros H. rewrite skipn_app.
  replace (n - length a)%nat with 0%nat by lia. reflexivity.
Qed.

Lemma same_bytes_app_l (s d : list Z) :
  same_bytes (s ++ d) 0 s 0 (length s).
Proof.
  intros j Hj. cbn [Z.to_nat Nat.add]. apply app_nth1. exact Hj.
Qed.

(** The loop on a longer stream: first what it does on the stream, then
    what it does on the bytes it left followed by the new ones. *)
Lemma drain_stream_app (s d : list Z) :
  let r1 := drain s (Z.of_nat (length s)) 0 [] in
  let rest := skipn (Z.to_nat (fst r1)) s in
  let r2 := drain (rest ++ d) (Z.of_nat (length (rest ++ d))) 0 [] in
  drain (s ++ d) (Z.of_nat (length (s ++ d))) 0 []
  = (fst r1 + fst r2, snd r1 ++ snd r2).
Proof.
  intros r1 rest r2.
  pose proof (drain_bounds s (Z.of_nat (length s)) 0 []) as (B1 & _ & B3).
  fold r1 in B1, B3. specialize (B3 ltac:(lia)).
  assert (LA : Z.of_nat (length (s ++ d))
               = Z.of_nat (length s) + Z.of_nat (length d))
    by (rewrite length_app; lia).
  (* up to the end of [s] *)
  assert (P : drain (s ++ d) (Z.of_nat (length s)) 0 [] = r1).
  { destruct (drain_relocate (Z.to_nat (Z.of_nat (length s) - 0)) (s ++ d)
                (Z.of_nat (length s)) 0 s (Z.of_nat (length s)) 0 [] [])
      as (E & new & N1 & N2); try lia.
    { rewrite Z.sub_0_r, Nat2Z.id. apply same_bytes_app_l. }
    fold r1 in E, N2. cbn [app] in N1, N2.
    destruct (drain (s ++ d) (Z.of_nat (length s)) 0 []) as [o1 s1].
    destruct r1 as [o2 s2]. cbn [fst snd] in *. subst. f_equal. lia. }
  rewrite (drain_more (s ++ d) (Z.of_nat (length s))
             (Z.of_nat (length (s ++ d))) ltac:(lia) 0 []).
  rewrite P, drain_sent by lia.
  (* from there on *)
  assert (LR : Z.of_nat (length (rest ++ d))
               = Z.of_nat (length (s ++ d)) - fst r1).
  { unfold rest. rewrite length_app, length_skipn. lia. }
  destruct (drain_relocate
              (Z.to_nat (Z.of_nat (length (s ++ d)) - fst r1))
              (s ++ d) (Z.of_nat (length (s ++ d))) (fst r1)
              (rest ++ d) (Z.of_nat (length (rest ++ d))) 0 [] [])
    as (E & new & N1 & N2); try lia.
  { intros j Hj. cbn [Z.to_nat Nat.add]. unfold rest.
    rewrite <- (nth_skipn (Z.to_nat (fst r1)) (s ++ d)).
    rewrite skipn_app.
    replace (Z.to_nat (fst r1) - length s)%nat with 0%nat by lia.
    reflexivity. }
  fold r2 in E, N2. cbn [app] in N1, N2. rewrite N1, <- N2.
  f_equal. lia.
Qed.

(** X2.  Any number of calls.  Whatever the cut of the byte stream into
    chunks, the handler sends the packets that the drain loop finds in the
    whole stream, and keeps the bytes behind the last scan offset. *)
Theorem feed_scans_the_stream (chunks : list (list Z)) :
  forall devc : dev_context,
    (first_run devc = true -> buflen devc = 0) ->
    0 <= buflen devc < UT8802E_PACKET_SIZE ->
    14 <= DMM_BUFSIZE devc ->
    Forall (fun received => 0 <= declared_length received < CHUNK_SIZE)
      chunks ->
    let s := valid_bytes devc ++ concat (map data_of chunks) in
    let r := drain s (Z.of_nat (length s)) 0 [] in
    exists devc' : dev_context,
      feed devc chunks = Some (devc', snd r)
      /\ valid_bytes devc' = skipn (Z.to_nat (fst r)) s
      /\ 0 <= buflen devc' < UT8802E_PACKET_SIZE.
Proof.
  induction chunks as [ | c cs IH ]; intros devc FR B C W s r.
  - assert (LV : Z.of_nat (length (valid_bytes devc)) = buflen devc).
    { unfold valid_bytes. rewrite length_firstn. unfold DMM_BUFSIZE in C.
      unfold UT8802E_PACKET_SIZE in B. lia. }
    assert (R : r = (0, [])).
    { unfold r. apply drain_short. unfold s. cbn [map concat].
      rewrite app_nil_r. lia. }
    rewrite R. exists devc. cbn [feed fst snd Z.to_nat skipn].
    unfold s. cbn [map concat]. rewrite app_nil_r.
    split; [ reflexivity | split; [ reflexivity | exact B ] ].
  - inversion W as [ | c' cs' Wc Wcs ]; subst c' cs'.
    destruct (handler_on_stream devc SR_OK 0 c)
      as (devc1 & H1 & V1 & _ & B1 & F1 & C1); try assumption; try lia.
    { unfold init_fails. apply andb_false_r. }
    { unfold UT8802E_PACKET_SIZE, CHUNK_SIZE in *. lia. }
    destruct (IH devc1) as (devc2 & H2 & V2 & B2); try assumption.
    { rewrite F1. discriminate. }
    { rewrite C1. exact C. }
    exists devc2. cbn [feed]. rewrite H1, H2.
    pose proof (drain_stream_app (valid_bytes devc ++ data_of c)
                  (concat (map data_of cs))) as A.
    cbv zeta in A. rewrite <- V1 in A.
    assert (S : s = (valid_bytes devc ++ data_of c)
                    ++ concat (map data_of cs)).
    { unfold s. cbn [map concat]. apply app_assoc. }
    unfold r. rewrite S, A. cbn [fst snd].
    split; [ reflexivity | ]. split; [ | exact B2 ].
    rewrite V2.
    set (o1 := fst (drain (valid_bytes devc ++ data_of c)
                      (Z.of_nat (length (valid_bytes devc ++ data_of c)))
                      0 [])) in *.
    set (o2 := fst (drain (valid_bytes devc1 ++ concat (map data_of cs))
                      (Z.of_nat (length (valid_bytes devc1
                                         ++ concat (map data_of cs))))
                      0 [])).
    assert (D1 : 0 <= o1 <= Z.of_nat (length (valid_bytes devc ++ data_of c))).
    { pose proof (drain_bounds (valid_bytes devc ++ data_of c)
                    (Z.of_nat (length (valid_bytes devc ++ data_of c))) 0 [])
        as (D1 & _ & D3).
      fold o1 in D1, D3. lia. }
    assert (D2 : 0 <= o2).
    { pose proof (drain_bounds (valid_bytes devc1 ++ concat (map data_of cs))
                    (Z.of_nat (length (valid_bytes devc1
                                       ++ concat (map data_of cs)))) 0 [])
        as (D4 & _ & _).
      fold o2 in D4. exact D4. }
    clearbody o1 o2. rewrite V1.
    rewrite <- (skipn_app_le (valid_bytes devc ++ data_of c)
                  (concat (map data_of cs))) by lia.
    rewrite skipn_skipn. f_equal. lia.
Qed.

Lemma feed_scans_the_stream_witness :
  let devc := mk_devc true (repeat 0 32) 0 0 in
  let chunks := [[0x03; 0x13; 0xAC; 0x03]; [0x00];
                 [0x07; 0x34; 0x12; 0x00; 0x32; 0x00; 0x5a; 0xAC]] in
  let s := [0x13; 0xAC; 0x03; 0x34; 0x12; 0x00; 0x32; 0x00; 0x5a; 0xAC] in
  exists devc' : dev_context,
    feed devc chunks = Some (devc', snd (drain s 10 0 []))
    /\ valid_bytes devc' = [0xAC]
    /\ 0 <= buflen devc' < UT8802E_PACKET_SIZE.
Proof.
  intros devc chunks s.
  destruct (feed_scans_the_stream chunks devc) as (devc' & F & V & B).
  - reflexivity.
  - change (0 <= 0 < 8). lia.
  - change (14 <= 32). lia.
  - unfold chunks.
    repeat (constructor; [ vm_compute; split; [ discriminate | reflexivity ]
                         | ]).
    constructor.
  - exists devc'. split; [ exact F | split; [ exact V | exact B ] ].
Defined.

(** ** More on the drain loop *)

(** X3.  Progress and cost.  The loop never moves the scan offset backwards
    nor past the end of the data, leaves fewer than 8 bytes unconsumed,
    keeps the packets sent before, and consumes 8 bytes for each packet it
    sends. *)
Theorem drain_consumes_eight_per_packet (pbuf : list Z) (len off : Z)
    (sent : list sr_datafeed_packet) :
  off <= fst (drain pbuf len off sent) <= Z.max off len
  /\ len - fst (drain pbuf len off sent) < UT8802E_PACKET_SIZE
  /\ exists new : list sr_datafeed_packet,
       snd (drain pbuf len off sent) = sent ++ new
       /\ UT8802E_PACKET_SIZE * Z.of_nat (length new)
          <= fst (drain pbuf len off sent) - off.
Proof.
  funelim (drain pbuf len off sent).
  - pose proof (proj1 (Z.leb_gt _ _) e). cbn [fst snd].
    split; [ lia | ]. split; [ lia | ].
    exists []. rewrite app_nil_r. cbn [length]. split; [ reflexivity | lia ].
  - pose proof (proj1 (Z.leb_le _ _) e).
    destruct H as (B1 & B2 & new & N1 & N2).
    unfold UT8802E_PACKET_SIZE in *.
    split; [ lia | ]. split; [ lia | ].
    exists (sent_by (decode_packet (at_offset pbuf off)) ++ new).
    rewrite N1, app_assoc. split; [ reflexivity | ].
    rewrite length_app.
    assert (length (sent_by (decode_packet (at_offset pbuf off))) <= 1)%nat
      by (destruct (decode_packet (at_offset pbuf off)); cbn; lia).
    lia.
  - pose proof (proj1 (Z.leb_le _ _) e).
    destruct H as (B1 & B2 & new & N1 & N2).
    unfold UT8802E_PACKET_SIZE in *.
    split; [ lia | ]. split; [ lia | ].
    exists new. split; [ exact N1 | lia ].
Qed.

(** X4.  Without the magic marker nothing is sent.  When none of the [len]
    bytes of the buffer is [0xAC], the loop sends no packet and stops with
    the last 7 bytes, or with all of them if they are fewer. *)
Theorem drain_without_marker_sends_nothing (pbuf : list Z) (len : Z) :
  (forall j : nat, Z.of_nat j < len -> nth j pbuf 0 <> 0xAC) ->
  drain pbuf len 0 [] = (Z.max 0 (len - 7), []).
Proof.
  intros M.
  destruct (Z_lt_le_dec len UT8802E_PACKET_SIZE) as [S | L].
  - rewrite drain_short by lia. unfold UT8802E_PACKET_SIZE in S.
    f_equal. lia.
  - unfold UT8802E_PACKET_SIZE in L.
    assert (I : forall i, 0 <= i < len ->
                sr_ut8802e_packet_valid (at_offset pbuf i) = false).
    { intros i Hi. rewrite packet_valid_magic, byte_at_at_offset.
      apply Z.eqb_neq. rewrite Nat.add_0_r. apply M. lia. }
    rewrite (drain_skip pbuf len [] (Z.to_nat (len - 8)) 0).
    + rewrite drain_body.
      replace (UT8802E_PACKET_SIZE <=? len - (0 + Z.of_nat (Z.to_nat (len - 8))))
        with true
        by (symmetry; apply Z.leb_le; unfold UT8802E_PACKET_SIZE; lia).
      rewrite I by lia.
      rewrite drain_short by (unfold UT8802E_PACKET_SIZE; lia).
      f_equal. lia.
    + intros i Hi. apply I. lia.
    + unfold UT8802E_PACKET_SIZE. lia.
Qed.

Lemma drain_without_marker_sends_nothing_witness :
  drain ([0x00; 0x13; 0x37; 0x03; 0x34; 0x12; 0x00; 0x32; 0x00; 0x5a]
         ++ repeat 0xAC 6) 10 0 []
  = (3, []).
Proof.
  apply (drain_without_marker_sends_nothing
           ([0x00; 0x13; 0x37; 0x03; 0x34; 0x12; 0x00; 0x32; 0x00; 0x5a]
            ++ repeat 0xAC 6) 10).
  intros j Hj.
  do 10 (destruct j as [ | j ]; [ cbn; discriminate | ]). lia.
Defined.

(** The loop over one validated packet at the scan offset. *)
Lemma drain_one_packet (pbuf : list Z) (len off : Z)
    (sent : list sr_datafeed_packet) :
  off + UT8802E_PACKET_SIZE <= len ->
  sr_ut8802e_packet_valid (at_offset pbuf off) = true ->
  drain pbuf len off sent
  = drain pbuf len (off + UT8802E_PACKET_SIZE)
      (sent ++ sent_by (decode_packet (at_offset pbuf off))).
Proof.
  intros L V. rewrite drain_body at 1.
  replace (UT8802E_PACKET_SIZE <=? len - off) with true
    by (symmetry; apply Z.leb_le; lia).
  rewrite V. reflexivity.
Qed.

(** X5.  Packets back to back.  On a buffer that holds validated packets one
    after the other and then fewer than 8 bytes, the loop sends the
    measurement of each packet, in their order, and stops behind the last
    one. *)
Theorem drain_back_to_back (packets : list (list Z)) :
  forall (pre trailing rest : list Z) (sent : list sr_datafeed_packet),
    Forall (fun p => length p = 8%nat /\ sr_ut8802e_packet_valid p = true)
      packets ->
    (length trailing < 8)%nat ->
    let pbuf := pre ++ concat packets ++ trailing ++ rest in
    let len := Z.of_nat (length pre + 8 * length packets + length trailing) in
    drain pbuf len (Z.of_nat (length pre)) sent
    = (Z.of_nat (length pre + 8 * length packets),
       sent ++ flat_map (fun p => sent_by (decode_packet p)) packets)
    /\ length (flat_map (fun p => sent_by (decode_packet p)) packets)
       = length packets.
Proof.
  induction packets as [ | p ps IH ]; intros pre trailing rest sent F T pbuf len.
  - cbn [concat flat_map length app]. rewrite app_nil_r. split; [ | reflexivity ].
    unfold len. rewrite drain_short by (unfold UT8802E_PACKET_SIZE; cbn; lia).
    f_equal. cbn. lia.
  - inversion F as [ | p' ps' [Lp Vp] Fps ]; subst p' ps'.
    destruct (decode_packet_valid p Vp) as [m D].
    assert (A : at_offset pbuf (Z.of_nat (length pre))
                = p ++ concat ps ++ trailing ++ rest).
    { unfold pbuf. cbn [concat]. rewrite <- app_assoc. apply at_offset_app. }
    assert (V : sr_ut8802e_packet_valid
                  (at_offset pbuf (Z.of_nat (length pre))) = true)
      by (rewrite A, packet_valid_app; assumption).
    assert (DA : decode_packet (at_offset pbuf (Z.of_nat (length pre)))
                 = decode_packet p)
      by (rewrite A; apply decode_packet_app; exact Lp).
    rewrite drain_one_packet; [ | unfold len, UT8802E_PACKET_SIZE;
                                  cbn [length]; lia | exact V ].
    rewrite DA.
    specialize (IH (pre ++ p) trailing rest
                  (sent ++ sent_by (decode_packet p)) Fps T).
    cbv zeta in IH. destruct IH as [IH1 IH2].
    replace (Z.of_nat (length pre) + UT8802E_PACKET_SIZE)
      with (Z.of_nat (length (pre ++ p)))
      by (rewrite length_app; unfold UT8802E_PACKET_SIZE; lia).
    replace pbuf with ((pre ++ p) ++ concat ps ++ trailing ++ rest)
      by (unfold pbuf; cbn [concat]; rewrite <- !app_assoc; reflexivity).
    replace len
      with (Z.of_nat (length (pre ++ p) + 8 * length ps + length trailing))
      by (unfold len; rewrite length_app; cbn [length]; lia).
    rewrite IH1. cbn [flat_map]. split.
    + f_equal; [ rewrite length_app; cbn [length]; lia | ].
      rewrite <- app_assoc. reflexivity.
    + rewrite length_app, IH2, D. reflexivity.
Qed.

Lemma drain_back_to_back_witness :
  let p1 := [0xAC; 0x03; 0x34; 0x12; 0x00; 0x32; 0x00; 0x5a] in
  let p2 := [0xAC; 0x2c; 0x00; 0x05; 0x00; 0x31; 0x00; 0x00] in
  drain ([] ++ concat [p1; p2] ++ [0xAC; 0x0b] ++ repeat 0 14) 18 0 []
  = (16, [] ++ flat_map (fun p => sent_by (decode_packet p)) [p1; p2]).
Proof.
  intros p1 p2.
  refine (proj1 (drain_back_to_back [p1; p2] [] [0xAC; 0x0b] (repeat 0 14) []
                   _ _)).
  - repeat constructor.
  - cbn. lia.
Defined.

(** ** The parser as a whole *)

Lemma mq_when_set (c : bool) (q : sr_mq) (u : sr_unit)
    (a : sr_datafeed_analog) :
  mq (when c (set_meaning q u) a) = (if c then Some q else mq a)
  /\ unit (when c (set_meaning q u) a) = (if c then Some u else unit a)
  /\ mqflags (when c (set_meaning q u) a) = mqflags a.
Proof. destruct c; repeat split. Qed.

Lemma mq_when_or (c : bool) (f : sr_mqflags) (a : sr_datafeed_analog) :
  mq (when c (or_mqflags f) a) = mq a
  /\ unit (when c (or_mqflags f) a) = unit a
  /\ mqflags (when c (or_mqflags f) a)
     = (if c then mqflags_or (mqflags a) f else mqflags a).
Proof. destruct c; repeat split. Qed.

(** The quantity and unit that [handle_flags] leaves: the last of its
    tests that holds decides. *)
Lemma handle_flags_meaning (a : sr_datafeed_analog) (v : float32)
    (i : ut8802e_info) :
  let a' := fst (handle_flags a v i) in
  (mq a', unit a')
  = if is_loop_current i then (Some SR_MQ_CURRENT, Some SR_UNIT_PERCENTAGE)
    else if is_power i then (Some SR_MQ_POWER, Some SR_UNIT_WATT)
    else if is_duty_cycle i
         then (Some SR_MQ_DUTY_CYCLE, Some SR_UNIT_PERCENTAGE)
    else if is_diode i then (Some SR_MQ_VOLTAGE, Some SR_UNIT_VOLT)
    else if is_continuity i
         then (Some SR_MQ_CONTINUITY, Some SR_UNIT_BOOLEAN)
    else if is_temperature i && is_fahrenheit i
         then (Some SR_MQ_TEMPERATURE, Some SR_UNIT_FAHRENHEIT)
    else if is_temperature i && is_celsius i
         then (Some SR_MQ_TEMPERATURE, Some SR_UNIT_CELSIUS)
    else if is_capacitance i
         then (Some SR_MQ_CAPACITANCE, Some SR_UNIT_FARAD)
    else if is_frequency i then (Some SR_MQ_FREQUENCY, Some SR_UNIT_HERTZ)
    else if is_resistance i then (Some SR_MQ_RESISTANCE, Some SR_UNIT_OHM)
    else if is_current i then (Some SR_MQ_CURRENT, Some SR_UNIT_AMPERE)
    else if is_voltage i then (Some SR_MQ_VOLTAGE, Some SR_UNIT_VOLT)
    else (mq a, unit a).
Proof.
  cbv zeta. unfold handle_flags. cbn [fst].
  repeat match goal with
         | |- context [ mq (when ?c (or_mqflags ?f) ?x) ] =>
             rewrite (proj1 (mq_when_or c f x))
         | |- context [ unit (when ?c (or_mqflags ?f) ?x) ] =>
             rewrite (proj1 (proj2 (mq_when_or c f x)))
         end.
  repeat match goal with
         | |- context [ mq (when ?c (set_meaning ?q ?u) ?x) ] =>
             rewrite (proj1 (mq_when_set c q u x))
         | |- context [ unit (when ?c (set_meaning ?q ?u) ?x) ] =>
             rewrite (proj1 (proj2 (mq_when_set c q u x)))
         end.
  destruct (is_loop_current i), (is_power i), (is_duty_cycle i),
    (is_diode i), (is_continuity i), (is_temperature i && is_fahrenheit i),
    (is_temperature i && is_celsius i), (is_capacitance i),
    (is_frequency i), (is_resistance i), (is_current i), (is_voltage i);
    reflexivity.
Qed.

(** The flags that [handle_flags] leaves on a record without flags. *)
Lemma handle_flags_mqflags (a : sr_datafeed_analog) (v : float32)
    (i : ut8802e_info) :
  mqflags a = mqflags_none ->
  mqflags (fst (handle_flags a v i))
  = mk_mqflags (is_ac i) (is_dc i || is_diode i) (is_ac i) (is_diode i)
      (is_min i) (is_max i) (is_rel i) (is_hold i).
Proof.
  intros N. unfold handle_flags. cbn [fst].
  repeat match goal with
         | |- context [ mqflags (when ?c (or_mqflags ?f) ?x) ] =>
             rewrite (proj2 (proj2 (mq_when_or c f x)))
         end.
  repeat match goal with
         | |- context [ mqflags (when ?c (set_meaning ?q ?u) ?x) ] =>
             rewrite (proj2 (proj2 (mq_when_set c q u x)))
         end.
  rewrite N.
  destruct (is_ac i), (is_dc i), (is_diode i), (is_min i), (is_max i),
    (is_rel i), (is_hold i); reflexivity.
Qed.

(** The value that [handle_flags] leaves. *)
Lemma handle_flags_value (a : sr_datafeed_analog) (v : float32)
    (i : ut8802e_info) :
  snd (handle_flags a v i)
  = if is_continuity i then continuity_value v else v.
Proof. unfold handle_flags, when. cbn [snd]. reflexivity. Qed.

(** The parse of a window with the magic marker, in terms of its two
    stages. *)
Lemma parse_with_marker (buf : list Z) (a : sr_datafeed_analog) :
  byte_at buf 0 = 0xAC ->
  let info := parse_flags buf info_zero in
  let v := snd (fst (parse_value buf info)) in
  sr_ut8802e_parse buf a
  = (SR_OK,
     Some (snd (handle_flags a v info),
           set_digits (pv_exponent buf) (fst (handle_flags a v info))),
     info).
Proof.
  intros M info v.
  assert (PV : parse_value buf info = (SR_OK, v, pv_exponent buf)).
  { unfold v, info. rewrite parse_value_spec. reflexivity. }
  unfold sr_ut8802e_parse.
  rewrite packet_valid_magic, M. cbn [Z.eqb Pos.eqb negb]. fold info.
  rewrite PV. destruct (handle_flags a v info) as [a' v']. reflexivity.
Qed.

Lemma categories_parse_flags (buf : list Z) :
  categories (parse_flags buf info_zero)
  = fst (switch_mode_table (byte_at buf 1))
  /\ coupling_of (parse_flags buf info_zero)
     = snd (switch_mode_table (byte_at buf 1)).
Proof.
  pose proof (parse_mode_table (byte_at buf 1)) as T.
  rewrite <- parse_flags_mode in T. unfold decoded_mode in T.
  rewrite <- T. split; reflexivity.
Qed.

(** X6.  Quantity and unit.  A window with the magic marker is parsed with
    success, and the quantity and unit of the measurement are those of the
    category of its mode byte: volts for the voltage and diode modes,
    amperes, ohms, farads, hertz, a boolean for continuity, a percentage
    for the duty cycle; with an unknown mode byte both stay unset.  The
    parser never reports a temperature or a power. *)
Theorem parse_quantity_and_unit (buf : list Z) :
  byte_at buf 0 = 0xAC ->
  exists (v : float32) (a : sr_datafeed_analog),
    sr_ut8802e_parse buf sr_analog_init
    = (SR_OK, Some (v, a), parse_flags buf info_zero)
    /\ (mq a, unit a)
       = meaning_of (fst (switch_mode_table (byte_at buf 1)))
    /\ mq a <> Some SR_MQ_TEMPERATURE
    /\ mq a <> Some SR_MQ_POWER.
Proof.
  intros M. rewrite (parse_with_marker buf sr_analog_init M). cbv zeta.
  set (info := parse_flags buf info_zero).
  set (v := snd (fst (parse_value buf info))).
  do 2 eexists. split; [ reflexivity | ].
  assert (E : (mq (fst (handle_flags sr_analog_init v info)),
               unit (fst (handle_flags sr_analog_init v info)))
              = meaning_of (fst (switch_mode_table (byte_at buf 1)))).
  { pose proof (handle_flags_meaning sr_analog_init v info) as H.
    cbv zeta in H. rewrite H. clear H.
    rewrite <- (proj1 (categories_parse_flags buf)). fold info.
    unfold info, parse_flags.
    cbn [is_voltage is_current is_resistance is_capacitance is_frequency
         is_temperature is_celsius is_fahrenheit is_continuity is_diode
         is_duty_cycle is_power is_loop_current categories].
    generalize (byte_at buf 1). intros b.
    destruct b as [ | p | p ];
      [ | do 7 (try destruct p as [ p | p | ]) | ]; reflexivity. }
  cbn [mq unit set_digits]. split; [ exact E | ].
  generalize E. clear E.
  generalize (fst (switch_mode_table (byte_at buf 1))).
  intros cs E.
  assert (Q : mq (fst (handle_flags sr_analog_init v info))
              = fst (meaning_of cs)) by (rewrite <- E; reflexivity).
  rewrite Q. clear.
  destruct cs as [ | [ | | | | | | | | | | ] [ | c cs ] ];
    cbn; split; discriminate.
Qed.

Lemma parse_quantity_and_unit_witness :
  exists (v : float32) (a : sr_datafeed_analog),
    sr_ut8802e_parse [0xAC; 0x23; 0x71; 0x05; 0x00; 0x33; 0x00; 0x00]
      sr_analog_init
    = (SR_OK, Some (v, a),
       parse_flags [0xAC; 0x23; 0x71; 0x05; 0x00; 0x33; 0x00; 0x00] info_zero)
    /\ (mq a, unit a) = (Some SR_MQ_VOLTAGE, Some SR_UNIT_VOLT).
Proof.
  destruct (parse_quantity_and_unit
              [0xAC; 0x23; 0x71; 0x05; 0x00; 0x33; 0x00; 0x00] eq_refl)
    as (v & a & P & E & _).
  exists v, a. split; [ exact P | exact E ].
Defined.

(** X7.  The flags.  For a window with the magic marker the flags of the
    measurement are: AC and RMS for the AC modes, DC for the DC modes and
    for the diode mode, DIODE for the diode mode, and MIN, MAX, RELATIVE
    and HOLD for the bits 0, 1, 3 and 4 of byte 6. *)
Theorem parse_mqflags (buf : list Z) :
  byte_at buf 0 = 0xAC ->
  let c := snd (switch_mode_table (byte_at buf 1)) in
  let diode := byte_at buf 1 =? 0x23 in
  let b6 := byte_at buf 6 in
  exists (v : float32) (a : sr_datafeed_analog),
    sr_ut8802e_parse buf sr_analog_init
    = (SR_OK, Some (v, a), parse_flags buf info_zero)
    /\ mqflags a
       = mk_mqflags (is_AC c) (is_DC c || diode) (is_AC c) diode
           (Z.testbit b6 0) (Z.testbit b6 1) (Z.testbit b6 3)
           (Z.testbit b6 4).
Proof.
  intros M c diode b6.
  rewrite (parse_with_marker buf sr_analog_init M). cbv zeta.
  set (info := parse_flags buf info_zero).
  set (v := snd (fst (parse_value buf info))).
  do 2 eexists. split; [ reflexivity | ].
  cbn [mqflags set_digits].
  rewrite (handle_flags_mqflags sr_analog_init v info eq_refl).
  assert (A : is_ac info = is_AC c /\ is_dc info = is_DC c
              /\ is_diode info = diode).
  { unfold c, diode, info, parse_flags. cbn [is_ac is_dc is_diode].
    generalize (byte_at buf 1). intros b.
    destruct b as [ | p | p ];
      [ | do 7 (try destruct p as [ p | p | ]) | ]; repeat split. }
  destruct A as (-> & -> & ->).
  unfold info, parse_flags. cbn [is_min is_max is_rel is_hold].
  unfold b6. rewrite !bit_set_testbit by lia. reflexivity.
Qed.

Lemma parse_mqflags_witness :
  exists (v : float32) (a : sr_datafeed_analog),
    sr_ut8802e_parse [0xAC; 0x0a; 0x00; 0x30; 0x02; 0x32; 0x16; 0x00]
      sr_analog_init
    = (SR_OK, Some (v, a),
       parse_flags [0xAC; 0x0a; 0x00; 0x30; 0x02; 0x32; 0x16; 0x00] info_zero)
    /\ mqflags a = mk_mqflags true false true false false true false true.
Proof.
  destruct (parse_mqflags
              [0xAC; 0x0a; 0x00; 0x30; 0x02; 0x32; 0x16; 0x00] eq_refl)
    as (v & a & P & E).
  exists v, a. split; [ exact P | exact E ].
Defined.

(** ** The value of a measurement *)

Lemma continuity_value_cases (v : float32) :
  continuity_value v = f32_0 \/ continuity_value v = f32_1.
Proof.
  unfold continuity_value.
  destruct (f32_ltb v f32_0 || f32_ltb f32_60 v); [ left | right ];
    reflexivity.
Qed.

(** The value that [parse_value] returns is a binary32 number, not a
    NaN. *)
Lemma parse_value_valid (buf : list Z) :
  let v := snd (fst (parse_value buf (parse_flags buf info_zero))) in
  f32_valid v = true /\ f32_is_nan v = false.
Proof.
  cbv zeta. rewrite parse_value_spec. cbn [fst snd].
  pose proof (pv_signed_valid buf (parse_flags buf info_zero)) as [V N].
  destruct (byte_at buf 1 =? 0x2c).
  - rewrite f32_of_int_1000.
    destruct (f32_mul_valid_finite
                (pv_signed buf (parse_flags buf info_zero)) false 16384000
                (-14) V eq_refl) as [V' N'].
    split; [ exact V' | exact (N' N) ].
  - destruct (byte_at buf 1 =? 0x27).
    + split; [ apply f32_div_valid | ].
      apply f32_div_not_nan; [ exact N | reflexivity ].
    + split; assumption.
Qed.

(** X8.  The outcome of the parser.  It fails exactly on a window without
    the magic marker, and then leaves [*info] zeroed; on every other
    window it succeeds, its value is a binary32 number and never a NaN,
    and the two digit counts are the low nibble of byte 5, so between 0
    and 15. *)
Theorem parse_outcome (buf : list Z) :
  (byte_at buf 0 <> 0xAC ->
   sr_ut8802e_parse buf sr_analog_init = (SR_ERR, None, info_zero))
  /\ (byte_at buf 0 = 0xAC ->
      exists (v : float32) (a : sr_datafeed_analog),
        sr_ut8802e_parse buf sr_analog_init
        = (SR_OK, Some (v, a), parse_flags buf info_zero)
        /\ f32_valid v = true /\ f32_is_nan v = false
        /\ digits a = Z.land (byte_at buf 5) 0xf
        /\ spec_digits a = digits a
        /\ 0 <= digits a <= 15).
Proof.
  split.
  - intros M. unfold sr_ut8802e_parse. rewrite packet_valid_magic.
    replace (byte_at buf 0 =? 0xAC) with false
      by (symmetry; apply Z.eqb_neq; exact M).
    reflexivity.
  - intros M. rewrite (parse_with_marker buf sr_analog_init M). cbv zeta.
    do 2 eexists. split; [ reflexivity | ].
    rewrite handle_flags_value.
    pose proof (parse_value_valid buf) as [V N]. cbv zeta in V, N.
    cbn [digits spec_digits set_digits].
    split; [ | split; [ | split; [ reflexivity | split; [ reflexivity | ] ] ] ].
    + destruct (is_continuity (parse_flags buf info_zero)); [ | exact V ].
      destruct (continuity_value_cases
                  (snd (fst (parse_value buf (parse_flags buf info_zero)))))
        as [-> | ->]; reflexivity.
    + destruct (is_continuity (parse_flags buf info_zero)); [ | exact N ].
      destruct (continuity_value_cases
                  (snd (fst (parse_value buf (parse_flags buf info_zero)))))
        as [-> | ->]; reflexivity.
    + apply pv_exponent_range.
Qed.

Lemma parse_outcome_witness :
  sr_ut8802e_parse [0x00; 0xAC; 0x03; 0x34; 0x12; 0x00; 0x32; 0x00]
    sr_analog_init
  = (SR_ERR, None, info_zero)
  /\ exists (v : float32) (a : sr_datafeed_analog),
       sr_ut8802e_parse [0xAC; 0x03; 0x34; 0x12; 0x00; 0x3f; 0x00; 0x00]
         sr_analog_init
       = (SR_OK, Some (v, a),
          parse_flags [0xAC; 0x03; 0x34; 0x12; 0x00; 0x3f; 0x00; 0x00]
            info_zero)
       /\ f32_is_nan v = false /\ digits a = 15.
Proof.
  split.
  - apply (proj1 (parse_outcome
                    [0x00; 0xAC; 0x03; 0x34; 0x12; 0x00; 0x32; 0x00])).
    discriminate.
  - destruct (proj2 (parse_outcome
                       [0xAC; 0x03; 0x34; 0x12; 0x00; 0x3f; 0x00; 0x00])
                eq_refl)
      as (v & a & P & _ & N & D & _).
    exists v, a. split; [ exact P | split; [ exact N | exact D ] ].
Defined.

(** *** The sign *)

Lemma binary_round_aux_signbit (s : bool) (m e : Z) (l : location) :
  f32_is_nan (binary_round_aux f32_prec f32_emax s m e l) = false ->
  f32_signbit (binary_round_aux f32_prec f32_emax s m e l) = s.
Proof.
  unfold binary_round_aux.
  destruct (shr_fexp f32_prec f32_emax m e l) as [mrs1 e1].
  destruct (shr_fexp f32_prec f32_emax _ e1 loc_Exact) as [mrs2 e2].
  destruct (shr_m mrs2) as [ | p | p ]; try reflexivity.
  - destruct (e2 <=? f32_emax - f32_prec); reflexivity.
  - discriminate.
Qed.

Lemma f32_of_int_signbit (n : Z) : 0 <= n -> f32_signbit (f32_of_int n) = false.
Proof.
  intros H. destruct n as [ | p | p ]; try lia; [ reflexivity | ].
  pose proof (f32_of_int_valid (Z.pos p)) as [_ N].
  unfold f32_of_int, binary_normalize, binary_round in *.
  destruct (shl_align _ _ _) as [mz ez].
  apply binary_round_aux_signbit. exact N.
Qed.

Lemma f32_div_signbit (x y : float32) :
  f32_is_nan (f32_div x y) = false ->
  f32_signbit (f32_div x y) = xorb (f32_signbit x) (f32_signbit y).
Proof.
  destruct x as [ sx | sx | | sx mx ex ], y as [ sy | sy | | sy my ey ];
    try discriminate; try reflexivity.
  unfold f32_div, SFdiv.
  destruct (SFdiv_core_binary _ _ _ _ _ _) as [ [mz ez] lz ].
  apply binary_round_aux_signbit.
Qed.

Lemma f32_mul_signbit (x y : float32) :
  f32_is_nan (f32_mul x y) = false ->
  f32_signbit (f32_mul x y) = xorb (f32_signbit x) (f32_signbit y).
Proof.
  destruct x as [ sx | sx | | sx mx ex ], y as [ sy | sy | | sy my ey ];
    try discriminate; try reflexivity.
  unfold f32_mul, SFmul. apply binary_round_aux_signbit.
Qed.

Lemma pv_intval_nonneg (buf : list Z) : 0 <= pv_intval buf.
Proof.
  unfold pv_intval, bcd_to_dec.
  pose proof (Z.mod_pos_bound
                (Z.shiftr (byte_at buf 4) 4 * 10 + Z.land (byte_at buf 4) 0xf)
                256 ltac:(lia)).
  pose proof (Z.mod_pos_bound
                (Z.shiftr (byte_at buf 3) 4 * 10 + Z.land (byte_at buf 3) 0xf)
                256 ltac:(lia)).
  pose proof (Z.mod_pos_bound
                (Z.shiftr (byte_at buf 2) 4 * 10 + Z.land (byte_at buf 2) 0xf)
                256 ltac:(lia)).
  lia.
Qed.

Lemma powf_10_signbit (e : Z) :
  0 <= e <= 15 -> f32_signbit (powf_10 e) = false.
Proof.
  intros H. apply f32_of_int_signbit. apply Z.pow_nonneg. lia.
Qed.

Lemma pv_quotient_signbit (buf : list Z) :
  f32_signbit (pv_quotient buf) = false.
Proof.
  pose proof (pv_quotient_valid buf) as [_ N]. unfold pv_quotient in *.
  rewrite (f32_div_signbit _ _ N).
  rewrite f32_of_int_signbit by apply pv_intval_nonneg.
  rewrite powf_10_signbit by apply pv_exponent_range. reflexivity.
Qed.

Lemma f32_opp_signbit (x : float32) :
  f32_is_nan x = false -> f32_signbit (f32_opp x) = negb (f32_signbit x).
Proof. destruct x; try discriminate; reflexivity. Qed.

(** X9.  The sign.  The sign bit of the value that [parse_value] returns is
    bit 7 of byte 6, whatever the digits, the exponent, the overload bit
    and the mode: a reading of zero with the sign flag is minus zero. *)
Theorem parse_value_signbit (buf : list Z) :
  f32_signbit (snd (fst (parse_value buf (parse_flags buf info_zero))))
  = Z.testbit (byte_at buf 6) 7.
Proof.
  pose proof (parse_value_valid buf) as [_ N]. cbv zeta in N.
  rewrite parse_value_spec in *. cbn [fst snd] in *.
  set (info := parse_flags buf info_zero) in *.
  assert (S : f32_signbit (pv_signed buf info) = Z.testbit (byte_at buf 6) 7).
  { rewrite pv_signed_spec.
    assert (is_sign info = Z.testbit (byte_at buf 6) 7) as <-
      by (apply bit_set_testbit; lia).
    pose proof (pv_quotient_valid buf) as [_ NQ].
    destruct (is_ol info), (is_sign info); try reflexivity.
    - rewrite f32_opp_signbit by exact NQ.
      rewrite pv_quotient_signbit. reflexivity.
    - apply pv_quotient_signbit. }
  destruct (byte_at buf 1 =? 0x2c).
  - rewrite (f32_mul_signbit _ _ N), S, f32_of_int_1000. apply xorb_false_r.
  - destruct (byte_at buf 1 =? 0x27).
    + rewrite (f32_div_signbit _ _ N), S.
      rewrite f32_of_int_signbit by lia. apply xorb_false_r.
    + exact S.
Qed.

(** *** Exact readings *)

Lemma f32_to_Z_opp (x : float32) (n : Z) :
  f32_to_Z x = Some n -> f32_to_Z (f32_opp x) = Some (- n).
Proof.
  destruct x as [ s | s | | s m e ]; try discriminate.
  - intros [= <-]. reflexivity.
  - unfold f32_opp, SFopp, f32_to_Z. cbv zeta.
    set (p := Z.pos m * 2 ^ e). set (q := Z.pos m / 2 ^ (- e)).
    destruct (0 <=? e).
    + intros [= <-]. f_equal. destruct s; unfold negb; lia.
    + destruct (Z.pos m mod 2 ^ (- e) =? 0); [ | discriminate ].
      intros [= <-]. f_equal. destruct s; unfold negb; lia.
Qed.

(** X10.  Integer readings are exact.  On a window of bytes with exponent 0,
    without overload and with a mode byte other than [0x2c] and [0x27],
    the value that [parse_value] returns is exactly the integer of the
    digit bytes, with the sign of the sign flag. *)
Theorem integer_reading_is_exact (buf : list Z) :
  window_bytes buf ->
  Z.land (byte_at buf 5) 0xf = 0 ->
  Z.testbit (byte_at buf 6) 6 = false ->
  byte_at buf 1 <> 0x2c ->
  byte_at buf 1 <> 0x27 ->
  let n := bcd (byte_at buf 4) * 10000 + bcd (byte_at buf 3) * 100
           + bcd (byte_at buf 2) in
  f32_to_Z (snd (fst (parse_value buf (parse_flags buf info_zero))))
  = Some (if Z.testbit (byte_at buf 6) 7 then - n else n).
Proof.
  intros W E O M1 M2 n.
  destruct (bcd_to_dec_bcd (byte_at buf 4) (W 4%nat ltac:(lia))) as [B4 R4].
  destruct (bcd_to_dec_bcd (byte_at buf 3) (W 3%nat ltac:(lia))) as [B3 R3].
  destruct (bcd_to_dec_bcd (byte_at buf 2) (W 2%nat ltac:(lia))) as [B2 R2].
  assert (I : pv_intval buf = n).
  { unfold pv_intval. rewrite B4, B3, B2. reflexivity. }
  assert (Q : pv_quotient buf = f32_of_int n).
  { unfold pv_quotient, pv_exponent. rewrite I, E.
    change (powf_10 0) with (f32_of_int 1).
    apply f32_div_1, f32_of_int_valid. }
  assert (X : f32_to_Z (f32_of_int n) = Some n).
  { apply f32_of_int_exact. change (2 ^ 24) with 16777216. unfold n. lia. }
  rewrite parse_value_spec. cbn [fst snd].
  replace (byte_at buf 1 =? 0x2c) with false
    by (symmetry; apply Z.eqb_neq; exact M1).
  replace (byte_at buf 1 =? 0x27) with false
    by (symmetry; apply Z.eqb_neq; exact M2).
  rewrite pv_signed_spec.
  assert (is_ol (parse_flags buf info_zero) = false) as ->
    by (rewrite <- O; apply bit_set_testbit; lia).
  assert (is_sign (parse_flags buf info_zero) = Z.testbit (byte_at buf 6) 7)
    as -> by (apply bit_set_testbit; lia).
  rewrite Q. destruct (Z.testbit (byte_at buf 6) 7).
  - apply f32_to_Z_opp, X.
  - exact X.
Qed.

Lemma integer_reading_is_exact_witness :
  let w := [0xAC; 0x1B; 0x99; 0x19; 0x00; 0x30; 0x84; 0x00] in
  f32_to_Z (snd (fst (parse_value w (parse_flags w info_zero))))
  = Some (- 1999).
Proof.
  intros w.
  refine (integer_reading_is_exact w _ eq_refl eq_refl _ _).
  - intros i Hi. unfold is_byte.
    do 8 (destruct i as [ | i ]; [ cbn; lia | ]). lia.
  - discriminate.
  - discriminate.
Defined.

(** *** The bytes that are not read *)

Lemma testbit_masked (x mask k : Z) :
  Z.testbit mask k = true ->
  Z.testbit x k = Z.testbit (Z.land x mask) k.
Proof. intros H. rewrite Z.land_spec, H, andb_true_r. reflexivity. Qed.

(** X11.  What the parser reads.  The result depends on bytes 0 to 4, on the
    low nibble of byte 5 and on bits 0, 1, 3, 4, 6 and 7 of byte 6 only:
    the high nibble of byte 5, bits 2 and 5 of byte 6 and the checksum
    byte are never looked at. *)
Theorem parse_reads_only (w1 w2 : list Z) (a : sr_datafeed_analog) :
  (forall i : nat, (i < 5)%nat -> byte_at w1 i = byte_at w2 i) ->
  Z.land (byte_at w1 5) 0xf = Z.land (byte_at w2 5) 0xf ->
  Z.land (byte_at w1 6) 0xDB = Z.land (byte_at w2 6) 0xDB ->
  sr_ut8802e_parse w1 a = sr_ut8802e_parse w2 a.
Proof.
  intros H E5 E6.
  assert (H0 := H 0%nat ltac:(lia)). assert (H1 := H 1%nat ltac:(lia)).
  assert (H2 := H 2%nat ltac:(lia)). assert (H3 := H 3%nat ltac:(lia)).
  assert (H4 := H 4%nat ltac:(lia)).
  assert (B : forall k, 0 <= k -> Z.testbit 0xDB k = true ->
                        bit_set (byte_at w1 6) k = bit_set (byte_at w2 6) k).
  { intros k Hk T. rewrite !bit_set_testbit by exact Hk.
    rewrite (testbit_masked (byte_at w1 6) 0xDB k T).
    rewrite (testbit_masked (byte_at w2 6) 0xDB k T).
    rewrite E6. reflexivity. }
  assert (F : parse_flags w1 info_zero = parse_flags w2 info_zero).
  { unfold parse_flags. rewrite H1.
    rewrite (B 0), (B 1), (B 3), (B 4), (B 6), (B 7)
      by (lia || reflexivity).
    reflexivity. }
  unfold sr_ut8802e_parse.
  rewrite (packet_valid_ext w1 w2 H0 H1), F.
  unfold parse_value, pv_capacitance, pv_frequency, pv_quotient,
    pv_exponent, pv_intval.
  rewrite H1, H2, H3, H4, E5. reflexivity.
Qed.

Lemma parse_reads_only_witness :
  sr_ut8802e_parse [0xAC; 0x03; 0x34; 0x12; 0x00; 0x32; 0x80; 0x5a]
    sr_analog_init
  = sr_ut8802e_parse [0xAC; 0x03; 0x34; 0x12; 0x00; 0xF2; 0xA4; 0xFF]
      sr_analog_init.
Proof.
  apply parse_reads_only.
  - intros i Hi. do 5 (destruct i as [ | i ]; [ reflexivity | ]). lia.
  - reflexivity.
  - reflexivity.
Defined.

(** *** BCD *)

(** X12.  BCD round trip.  The three digit bytes that hold a number below
    one million in BCD are bytes, and [parse_value] reads the number back
    from them. *)
Theorem bcd_digits_round_trip (n : Z) (buf : list Z) :
  0 <= n < 1000000 ->
  byte_at buf 2 = bcd_encode (n mod 100) ->
  byte_at buf 3 = bcd_encode (n / 100 mod 100) ->
  byte_at buf 4 = bcd_encode (n / 10000) ->
  pv_intval buf = n
  /\ is_byte (byte_at buf 2) /\ is_byte (byte_at buf 3)
  /\ is_byte (byte_at buf 4).
Proof.
  intros N E2 E3 E4.
  assert (R : forall d, 0 <= d <= 99 ->
                        is_byte (bcd_encode d) /\ bcd_to_dec (bcd_encode d) = d).
  { intros d Hd. unfold bcd_encode, is_byte.
    pose proof (Z.mod_pos_bound d 10 ltac:(lia)) as M.
    assert (Q : 0 <= d / 10 <= 9).
    { split; [ apply Z.div_pos; lia | ].
      apply Z.lt_succ_r, Z.div_lt_upper_bound; lia. }
    split; [ lia | ].
    destruct (bcd_to_dec_bcd (16 * (d / 10) + d mod 10)) as [-> _];
      [ unfold is_byte; lia | ].
    unfold bcd.
    assert (S : Z.shiftr (16 * (d / 10) + d mod 10) 4 = d / 10).
    { rewrite (Z.shiftr_div_pow2 _ 4) by lia. change (2 ^ 4) with 16.
      rewrite Z.add_comm, Z.mul_comm, Z.div_add by lia.
      rewrite Z.div_small by lia. lia. }
    assert (L : Z.land (16 * (d / 10) + d mod 10) 0xF = d mod 10).
    { rewrite (Z.land_ones _ 4) by lia. change (2 ^ 4) with 16.
      rewrite Z.add_comm, Z.mul_comm, Z.mod_add by lia.
      apply Z.mod_small. lia. }
    rewrite S, L. pose proof (Z.div_mod d 10 ltac:(lia)). lia. }
  pose proof (Z.mod_pos_bound n 100 ltac:(lia)) as M2.
  pose proof (Z.mod_pos_bound (n / 100) 100 ltac:(lia)) as M3.
  assert (M4 : 0 <= n / 10000 <= 99).
  { split; [ apply Z.div_pos; lia | ].
    apply Z.lt_succ_r, Z.div_lt_upper_bound; lia. }
  destruct (R (n mod 100) ltac:(lia)) as [Y2 D2].
  destruct (R (n / 100 mod 100) ltac:(lia)) as [Y3 D3].
  destruct (R (n / 10000) ltac:(lia)) as [Y4 D4].
  rewrite E2, E3, E4.
  split; [ | split; [ exact Y2 | split; [ exact Y3 | exact Y4 ] ] ].
  unfold pv_intval. rewrite E2, E3, E4, D2, D3, D4.
  pose proof (Z.div_mod n 100 ltac:(lia)).
  pose proof (Z.div_mod (n / 100) 100 ltac:(lia)).
  replace (n / 10000) with (n / 100 / 100)
    by (rewrite Z.div_div by lia; reflexivity).
  lia.
Qed.

Lemma bcd_digits_round_trip_witness :
  pv_intval [0xAC; 0x03; 0x56; 0x34; 0x12; 0x32; 0x00; 0x00] = 123456.
Proof.
  refine (proj1 (bcd_digits_round_trip 123456
                   [0xAC; 0x03; 0x56; 0x34; 0x12; 0x32; 0x00; 0x00]
                   _ eq_refl eq_refl eq_refl)).
  lia.
Defined.

(** ** Failures of the handler and its caller *)



(** X14.  The callback.  [uni_t_ut8802e_receive_data] hands on what the
    handler did and returns [FALSE] exactly when the set-up of the HID
    chip or the transfer failed: no content of a chunk makes the event
    source go away. *)
Theorem receive_data_result (devc : dev_context) (init_ret : sr_status)
    (xfer_ret : Z) (received : list Z) :
  uni_t_ut8802e_receive_data devc init_ret xfer_ret received
  = match get_and_handle_data devc init_ret xfer_ret received with
    | None => None
    | Some (_, devc', sent) =>
        Some (negb (init_fails devc init_ret || (xfer_ret <? 0)), devc', sent)
    end.
Proof.
  unfold uni_t_ut8802e_receive_data.
  generalize (handler_error_iff devc init_ret xfer_ret received).
  destruct (get_and_handle_data devc init_ret xfer_ret received)
    as [ [ [ [ | ] d ] s ] | ]; cbn [returns_error]; intros E;
    try rewrite <- E; reflexivity.
Qed.

(** X15.  The copy loop writes the data and nothing else.  When the copy of
    a chunk ends, the array is the old one with the declared data bytes
    written behind the first [len] bytes: the bytes before and the bytes
    after are untouched, and the length grows by the declared count. *)
Theorem append_chunk_writes_only_the_data (received pbuf : list Z) (len : Z)
    (pbuf' : list Z) (len' : Z) :
  0 <= len ->
  0 <= declared_length received ->
  append_chunk (chunk_of received) pbuf len = Some (pbuf', len') ->
  len' = len + declared_length received
  /\ pbuf' = firstn (Z.to_nat len) pbuf
             ++ data_of received
             ++ skipn (Z.to_nat len') pbuf
  /\ length pbuf' = length pbuf.
Proof.
  intros L D H.
  destruct (append_chunk_length _ _ _ _ _ H) as [E1 E2].
  split; [ lia | ]. split; [ | exact E2 ].
  unfold append_chunk in H. fold (declared_length received) in H.
  apply append_loop_content in H; [ | lia ].
  change (Z.to_nat (1 + 0)) with 1%nat in H. fold (data_of received) in H.
  rewrite H, E1, Z.max_r, Z2Nat.inj_add by assumption. reflexivity.
Qed.

Lemma append_chunk_writes_only_the_data_witness :
  let received := [0x03; 0x34; 0x12; 0x00; 0x55] in
  let pbuf := [0xAC; 0x03; 0x07; 0x08; 0x09; 0x0a; 0x0b; 0x0c] in
  let pbuf' := [0xAC; 0x03; 0x34; 0x12; 0x00; 0x0a; 0x0b; 0x0c] in
  append_chunk (chunk_of received) pbuf 2 = Some (pbuf', 5)
  /\ pbuf' = firstn 2 pbuf ++ data_of received ++ skipn 5 pbuf.
Proof.
  intros received pbuf pbuf'.
  assert (H : append_chunk (chunk_of received) pbuf 2 = Some (pbuf', 5))
    by reflexivity.
  split; [ exact H | ].
  assert (L : 0 <= 2) by lia.
  assert (D : 0 <= declared_length received) by (cbv; discriminate).
  exact (proj1 (proj2 (append_chunk_writes_only_the_data received pbuf 2
                         pbuf' 5 L D H))).
Defined.
